(** * meilisearch-js: the [Index] class of [src/indexes.ts]

    A shallow embedding of the index handle of the Meilisearch JavaScript
    client.  JavaScript values are a small inductive type, objects are
    finite maps from property names to values, and every [async] method is
    a computation in a state-and-exception monad whose state holds the
    handle's mutable fields and the record of every HTTP exchange made so
    far.  The remote server, the [Date] constructor and [ToString] on
    non-string values are parameters of the development (class [Host]). *)

From Stdlib Require Import ZArith Lia.
From stdpp Require Import base strings list gmap fin_maps pretty.

#[local] Set Warnings "-register-all".
#[local] Set Default Proof Using "Type".

(** ** JavaScript values *)

(** Objects carry their own properties; arrays and dates are objects too,
    so besides their elements (resp. time value) they can be given own
    properties by an assignment such as [task.enqueuedAt = ...].  Numbers
    are the integers: no claim of this development depends on fractions. *)
Inductive value : Type :=
  | VUndefined
  | VNull
  | VBool (b : bool)
  | VNum (n : Z)
  | VStr (s : string)
  | VObj (props : gmap string value)
  | VArr (elems : list value) (props : gmap string value)
  | VDate (time : option Z) (props : gmap string value).

Abbreviation object := (gmap string value).

(** An array literal: elements and no further own property. *)
Definition Arr (elems : list value) : value := VArr elems ∅.

Definition is_undefined (v : value) : bool :=
  match v with VUndefined => true | _ => false end.

(** [typeof v === 'string'] *)
Definition typeof_string (v : value) : bool :=
  match v with VStr _ => true | _ => false end.

(** [Array.isArray(v)] *)
Definition Array_isArray (v : value) : bool :=
  match v with VArr _ _ => true | _ => false end.

(** A property read [o.k] on an object held as a map: a missing key reads
    as [undefined]. *)
Definition field (o : object) (k : string) : value :=
  default VUndefined (o !! k).

(** [options?.k] where [options] may have been omitted. *)
Definition opt_field (o : option object) (k : string) : value :=
  match o with Some m => field m k | None => VUndefined end.

(** [{ ...options }] where [options] may have been omitted. *)
Definition spread (o : option object) : object :=
  match o with Some m => m | None => ∅ end.

(** ** Errors, requests and the world *)

Inductive Error : Type :=
  | MeiliSearchError (message : string)
  | MeiliSearchTimeOutError (lastSeen : value) (elapsed : Z)
  | TypeError
  | TransportError (payload : value).

Inductive Method : Type := GET | POST | PUT | PATCH | DELETE.

Record Request : Type := mkRequest {
  method : Method;
  url : string;
  params : value;
  body : value;
  config : value
}.

Inductive Answer : Type :=
  | Success (res : value)
  | Failure (err : value).

Record Reply : Type := mkReply {
  answer : Answer;
  took : N
}.

Record Exchange : Type := mkExchange {
  sent : Request;
  reply : Reply
}.

(** Everything outside the client: the exchanges made so far, oldest
    first, and the wall clock in milliseconds. *)
Record World : Type := mkWorld {
  exchanges : list Exchange;
  clock : Z
}.

(** The environment the client runs in.  [network] is the remote server
    seen through the HTTP layer: its reply may depend on the whole history
    and on the time.  [Date_time v] is the time value of [new Date(v)]
    ([None] for an invalid date) and [ToString] is ECMAScript's conversion
    for values that are not strings already. *)
Class Host : Type := {
  network : World → Request → Reply;
  Date_time : value → option Z;
  ToString : value → string
}.

(** ** Computations *)

Inductive outcome (A : Type) : Type :=
  | Ret (a : A)
  | Throw (e : Error)
  | OutOfFuel.
Arguments Ret {A} a.
Arguments Throw {A} e.
Arguments OutOfFuel {A}.

Definition Comp (S A : Type) : Type := S → outcome A * S.

Definition ret {S A} (a : A) : Comp S A := λ s, (Ret a, s).

Definition throw {S A} (e : Error) : Comp S A := λ s, (Throw e, s).

Definition diverge {S A} : Comp S A := λ s, (OutOfFuel, s).

Definition bind {S A B} (c : Comp S A) (k : A → Comp S B) : Comp S B :=
  λ s, match c s with
       | (Ret a, s') => k a s'
       | (Throw e, s') => (Throw e, s')
       | (OutOfFuel, s') => (OutOfFuel, s')
       end.

Notation "x <- c ;; k" := (bind c (λ x, k))
  (at level 100, c at next level, right associativity).

(** [for (const x of xs) out.push(await f(x))]: one call after the other,
    the first exception ends the loop. *)
Fixpoint for_each {S A B} (f : A → Comp S B) (xs : list A) : Comp S (list B) :=
  match xs with
  | [] => ret []
  | x :: rest =>
      y <- f x ;;
      ys <- for_each f rest ;;
      ret (y :: ys)
  end.

Definition IO (A : Type) : Type := Comp World A.

(** ** Property access, dates and strings *)

(** A pure step that can only fail with a [TypeError], run inside a
    computation. *)
Definition attempt {S A} (o : option A) : Comp S A :=
  match o with Some a => ret a | None => throw TypeError end.

(** [v.k] for a property name that is not a built-in of any prototype
    (all the names this class reads are of that kind): reading from
    [undefined] or [null] raises ([None]), a primitive has no such
    property. *)
Definition prop (v : value) (k : string) : option value :=
  match v with
  | VUndefined | VNull => None
  | VObj p | VArr _ p | VDate _ p => Some (field p k)
  | VBool _ | VNum _ | VStr _ => Some VUndefined
  end.

Definition getProp {S} (v : value) (k : string) : Comp S value :=
  attempt (prop v k).

(** [v.k = x] in strict mode (the file starts with ['use strict']); the
    result is the object after the assignment, [None] when it raises. *)
Definition assign (v : value) (k : string) (x : value) : option value :=
  match v with
  | VObj p => Some (VObj (<[k := x]> p))
  | VArr l p => Some (VArr l (<[k := x]> p))
  | VDate t p => Some (VDate t (<[k := x]> p))
  | VUndefined | VNull | VBool _ | VNum _ | VStr _ => None
  end.

Definition setProp {S} (v : value) (k : string) (x : value) : Comp S value :=
  attempt (assign v k x).

Section Builtins.
Context `{Host}.

(** [new Date(v)] *)
Definition new_Date (v : value) : value := VDate (Date_time v) ∅.

(** [`${v}`] *)
Definition to_string (v : value) : string :=
  match v with VStr s => s | _ => ToString v end.

(** How [Array.prototype.join] renders one element. *)
Definition join_element (v : value) : string :=
  match v with
  | VUndefined | VNull => ""
  | _ => to_string v
  end.

(** [elems.join(',')] *)
Definition Array_join (elems : list value) : string :=
  String.concat "," (join_element <$> elems).

(** [v?.join(',')]: [undefined] for a nullish [v], the joined string for
    an array; any other value has no [join] method to call, and the call
    raises ([None]). *)
Definition joined (v : value) : option value :=
  match v with
  | VUndefined | VNull => Some VUndefined
  | VArr elems _ => Some (VStr (Array_join elems))
  | _ => None
  end.

Definition optional_join {S} (v : value) : Comp S value :=
  attempt (joined v).
End Builtins.

(** [documents.slice(start, end)] with JavaScript's treatment of negative
    and out-of-range bounds. *)
Definition slice {A} (l : list A) (start stop : Z) : list A :=
  let len := Z.of_nat (length l) in
  let from := if (start <? 0)%Z then Z.max (len + start) 0 else Z.min start len in
  let to := if (stop <? 0)%Z then Z.max (len + stop) 0 else Z.min stop len in
  take (Z.to_nat (to - from)) (drop (Z.to_nat from) l).

(** Modelled from the spec: [removeUndefinedFromObject] of [./utils], which
    is not among the sources.  It returns a copy of the object without the
    properties whose value is [undefined]; the client relies on it so that
    an absent parameter is omitted from the request. *)
Definition removeUndefinedFromObject (o : object) : object :=
  filter (λ kv, is_undefined kv.2 = false) o.

(** ** The transport *)

Module HttpRequests.
Section Transport.
Context `{Host}.

(** Modelled from the spec: the transport adapter [HttpRequests] of
    [./http-requests], which is not among the sources.  A request is
    handed to the network, the exchange is recorded, the time it took
    passes, and a failure is raised as an exception. *)
Definition request (m : Method) (u : string) (q b c : value) : IO value :=
  λ w,
    let rq := mkRequest m u q b c in
    let rp := network w rq in
    let w' := mkWorld (exchanges w ++ [mkExchange rq rp])
                      (clock w + Z.of_N (took rp)) in
    match answer rp with
    | Success res => (Ret res, w')
    | Failure err => (Throw (TransportError err), w')
    end.

Definition get (u : string) (q c : value) : IO value :=
  request GET u q VUndefined c.

Definition post (u : string) (b q c : value) : IO value :=
  request POST u q b c.

Definition put (u : string) (b q c : value) : IO value :=
  request PUT u q b c.

Definition patch (u : string) (b q c : value) : IO value :=
  request PATCH u q b c.

Definition delete (u : string) (b q c : value) : IO value :=
  request DELETE u q b c.
End Transport.
End HttpRequests.

(** ** Task handles and the task client *)

Module EnqueuedTask.
Section Class.
Context `{Host}.

(** Modelled from the spec: the class [EnqueuedTask] of
    [./enqueued-task], which is not among the sources.  The spec gives
    its fields (taskUid, indexUid, status, type, enqueuedAt) and asks
    that the enqueue time be exposed as a parsed date. *)
Definition make (task : value) : option value :=
  taskUid ← prop task "taskUid";
  indexUid ← prop task "indexUid";
  status ← prop task "status";
  type ← prop task "type";
  enqueuedAt ← prop task "enqueuedAt";
  Some (VObj (<["taskUid" := taskUid]>
             (<["indexUid" := indexUid]>
             (<["status" := status]>
             (<["type" := type]>
             (<["enqueuedAt" := new_Date enqueuedAt]> ∅)))))).

(** Modelled from the spec: the constructor call [new EnqueuedTask(task)]. *)
Definition new {S} (task : value) : Comp S value := attempt (make task).
End Class.
End EnqueuedTask.

(** The part of [TaskClient] that the index handle calls.  Its methods
    act on the world only: a task client is built from the configuration
    and holds no reference to the handle. *)
Module TaskClient.
Record t : Type := {
  getTasks : object → IO value;
  getTask : Z → IO value;
  waitForTasks : list Z → object → IO value;
  waitForTask : Z → object → IO value
}.
End TaskClient.

Module Task.
Section Class.
Context `{Host}.

(** Modelled from the spec: the class [Task] of [./task], which is not
    among the sources: the fields of the spec's data model, the three
    timestamps parsed. *)
Definition make (task : value) : option value :=
  uid ← prop task "uid";
  indexUid ← prop task "indexUid";
  status ← prop task "status";
  type ← prop task "type";
  details ← prop task "details";
  error ← prop task "error";
  duration ← prop task "duration";
  enqueuedAt ← prop task "enqueuedAt";
  startedAt ← prop task "startedAt";
  finishedAt ← prop task "finishedAt";
  Some (VObj (<["uid" := uid]>
             (<["indexUid" := indexUid]>
             (<["status" := status]>
             (<["type" := type]>
             (<["details" := details]>
             (<["error" := error]>
             (<["duration" := duration]>
             (<["enqueuedAt" := new_Date enqueuedAt]>
             (<["startedAt" := new_Date startedAt]>
             (<["finishedAt" := new_Date finishedAt]> ∅))))))))))).

(** Modelled from the spec: the constructor call [new Task(task)]. *)
Definition new {S} (task : value) : Comp S value := attempt (make task).

(** Modelled from the spec: [TaskClient.getTask] of [./task]: a single
    fetch of [tasks/{uid}], no retry. *)
Definition getTask (taskUid : Z) : IO value :=
  res <- HttpRequests.get ("tasks/" +:+ to_string (VNum taskUid))
                          VUndefined VUndefined ;;
  new res.

(** Modelled from the spec: [TaskClient.getTasks] of [./task]: a single
    fetch of [tasks] with the filters as query, the results as tasks. *)
Definition getTasks (parameters : object) : IO value :=
  res <- HttpRequests.get "tasks" (VObj parameters) VUndefined ;;
  results <- getProp res "results" ;;
  match results with
  | VArr elems props =>
      ts <- for_each new elems ;;
      setProp res "results" (VArr ts props)
  | _ => throw TypeError
  end.

(** Modelled from the spec: the terminal statuses, from which a task
    never moves on. *)
Definition is_terminal (status : value) : bool :=
  match status with
  | VStr s => bool_decide (s = "succeeded") || bool_decide (s = "failed")
              || bool_decide (s = "canceled")
  | _ => false
  end.

(** [Date.now()] *)
Definition Date_now : IO Z := λ w, (Ret (clock w), w).

(** Modelled from the spec: the suspension between two polls; a delay
    that is not positive does not wait. *)
Definition sleep (ms : Z) : IO unit :=
  λ w, (Ret tt, mkWorld (exchanges w) (clock w + Z.max ms 0)).

(** Modelled from the spec: a wait option as an integer, with the
    default of the spec's [WaitOptions] when it is missing. *)
Definition option_ms (v : value) (dflt : Z) : Z :=
  match v with VNum n => n | _ => dflt end.

(** Modelled from the spec: the polling loop of [TaskClient.waitForTask]:
    fetch; a terminal task is returned; otherwise the call fails once
    [timeOutMs] has elapsed since the start, else it suspends for
    [intervalMs] and fetches again.  [fuel] bounds the number of polls. *)
Fixpoint poll (fuel : nat) (taskUid t0 timeOutMs intervalMs : Z) : IO value :=
  match fuel with
  | O => diverge
  | S fuel' =>
      task <- getTask taskUid ;;
      status <- getProp task "status" ;;
      if is_terminal status then ret task
      else
        now <- Date_now ;;
        if (timeOutMs <=? now - t0)%Z
        then throw (MeiliSearchTimeOutError task (now - t0))
        else
          _ <- sleep intervalMs ;;
          poll fuel' taskUid t0 timeOutMs intervalMs
  end.

(** Modelled from the spec: [TaskClient.waitForTask] of [./task]. *)
Definition waitForTask (fuel : nat) (taskUid : Z) (waitOptions : object)
  : IO value :=
  t0 <- Date_now ;;
  poll fuel taskUid t0
       (option_ms (field waitOptions "timeOutMs") 5000)
       (option_ms (field waitOptions "intervalMs") 50).

(** Modelled from the spec: [TaskClient.waitForTasks] of [./task]:
    [waitForTask] on each id, one after the other, the results collected
    in input order; the first failure ends the call. *)
Definition waitForTasks (fuel : nat) (taskUids : list Z) (waitOptions : object)
  : IO value :=
  ts <- for_each (λ taskUid, waitForTask fuel taskUid waitOptions) taskUids ;;
  ret (Arr ts).

Definition client (fuel : nat) : TaskClient.t :=
  {| TaskClient.getTasks := getTasks;
     TaskClient.getTask := getTask;
     TaskClient.waitForTasks := waitForTasks fuel;
     TaskClient.waitForTask := waitForTask fuel |}.
End Class.
End Task.

(** ** The index handle *)

(** The fields of an [Index] instance.  The transport [httpRequest] is
    the module [HttpRequests] over the host's network. *)
Record Index : Type := mkIndex {
  uid : string;
  primaryKey : value;
  createdAt : value;
  updatedAt : value;
  tasks : TaskClient.t
}.

Record State : Type := mkState {
  this : Index;
  world : World
}.

Definition M (A : Type) : Type := Comp State A.

(** An action of the transport or of the task client, run from a method. *)
Definition liftIO {A} (c : IO A) : M A :=
  λ s, let '(r, w) := c (world s) in (r, mkState (this s) w).

Definition self : M Index := λ s, (Ret (this s), s).

Definition set_primaryKey (v : value) : M unit :=
  λ s, let i := this s in
       (Ret tt, mkState (mkIndex (uid i) v (createdAt i) (updatedAt i) (tasks i))
                        (world s)).

Definition set_createdAt (v : value) : M unit :=
  λ s, let i := this s in
       (Ret tt, mkState (mkIndex (uid i) (primaryKey i) v (updatedAt i) (tasks i))
                        (world s)).

Definition set_updatedAt (v : value) : M unit :=
  λ s, let i := this s in
       (Ret tt, mkState (mkIndex (uid i) (primaryKey i) (createdAt i) v (tasks i))
                        (world s)).

(** A parameter default [x = d]: it applies when the argument is
    [undefined]. *)
Definition default_param (v d : value) : value :=
  if is_undefined v then d else v.

Module Index.
Section Class.
Context `{Host}.

(** [`indexes/${this.uid}`] followed by a resource segment. *)
Definition index_url (i : Index) (rest : string) : string :=
  "indexes/" +:+ uid i +:+ rest.

(** [task.k = new Date(task.enqueuedAt)], the value being the task
    after the assignment.  Every method that converts the enqueue time
    in place does so with [k = "enqueuedAt"], except [updateSettings]. *)
Definition restamp (k : string) (task : value) : option value :=
  enqueuedAt ← prop task "enqueuedAt";
  assign task k (new_Date enqueuedAt).

Definition stamp {S} (k : string) (task : value) : Comp S value :=
  attempt (restamp k task).

(** *** Search *)

(** An object literal [{ q: query, ...options }]: the properties of
    [options] come later and win. *)
Definition search (query : value) (options : option object) (config : value)
  : M value :=
  i <- self ;;
  liftIO (HttpRequests.post (index_url i "/search")
            (VObj (removeUndefinedFromObject
                     (spread options ∪ {["q" := query]})))
            VUndefined config).

Definition parseFilter {S} (filter : value) : Comp S value :=
  if typeof_string filter then ret filter
  else if Array_isArray filter then
    throw (MeiliSearchError
      "The filter query parameter should be in string format when using searchGet")
  else ret VUndefined.

Definition searchGet (query : value) (options : option object) (config : value)
  : M value :=
  i <- self ;;
  filter <- parseFilter (opt_field options "filter") ;;
  sort <- optional_join (opt_field options "sort") ;;
  facets <- optional_join (opt_field options "facets") ;;
  attributesToRetrieve <- optional_join (opt_field options "attributesToRetrieve") ;;
  attributesToCrop <- optional_join (opt_field options "attributesToCrop") ;;
  attributesToHighlight <- optional_join (opt_field options "attributesToHighlight") ;;
  let getParams : object :=
    <["attributesToHighlight" := attributesToHighlight]>
    (<["attributesToCrop" := attributesToCrop]>
    (<["attributesToRetrieve" := attributesToRetrieve]>
    (<["facets" := facets]>
    (<["sort" := sort]>
    (<["filter" := filter]>
    (spread options ∪ {["q" := query]})))))) in
  liftIO (HttpRequests.get (index_url i "/search")
            (VObj (removeUndefinedFromObject getParams)) config).

(** *** Index *)

Definition getRawInfo : M value :=
  i <- self ;;
  res <- liftIO (HttpRequests.get (index_url i "") VUndefined VUndefined) ;;
  pk <- getProp res "primaryKey" ;;
  _ <- set_primaryKey pk ;;
  u <- getProp res "updatedAt" ;;
  _ <- set_updatedAt (new_Date u) ;;
  c <- getProp res "createdAt" ;;
  _ <- set_createdAt (new_Date c) ;;
  ret res.

Definition fetchInfo : M Index :=
  _ <- getRawInfo ;;
  self.

Definition fetchPrimaryKey : M value :=
  res <- getRawInfo ;;
  pk <- getProp res "primaryKey" ;;
  _ <- set_primaryKey pk ;;
  i <- self ;;
  ret (primaryKey i).

(** The static method: it has no handle to act on. *)
Definition create (u : string) (options : option object) : M value :=
  task <- liftIO (HttpRequests.post "indexes"
                    (VObj (<["uid" := VStr u]> (spread options)))
                    VUndefined VUndefined) ;;
  EnqueuedTask.new task.

Definition update (data : value) : M value :=
  i <- self ;;
  task <- liftIO (HttpRequests.patch (index_url i "") data VUndefined VUndefined) ;;
  stamp "enqueuedAt" task.

Definition delete : M value :=
  i <- self ;;
  task <- liftIO (HttpRequests.delete (index_url i "")
                    VUndefined VUndefined VUndefined) ;;
  EnqueuedTask.new task.

(** *** Tasks *)

Definition getTasks (parameters : option object) : M value :=
  i <- self ;;
  liftIO (TaskClient.getTasks (tasks i)
            (<["indexUids" := Arr [VStr (uid i)]]> (spread parameters))).

Definition getTask (taskUid : Z) : M value :=
  i <- self ;;
  liftIO (TaskClient.getTask (tasks i) taskUid).

(** The object [{ timeOutMs, intervalMs }] handed to the task client,
    after the destructuring defaults [timeOutMs = 5000] and
    [intervalMs = 50] of the parameter [waitOptions = {}]. *)
Definition resolved_waitOptions (waitOptions : option object) : object :=
  let timeOutMs := default_param (opt_field waitOptions "timeOutMs") (VNum 5000) in
  let intervalMs := default_param (opt_field waitOptions "intervalMs") (VNum 50) in
  <["intervalMs" := intervalMs]> (<["timeOutMs" := timeOutMs]> ∅).

Definition waitForTasks (taskUids : list Z) (waitOptions : option object)
  : M value :=
  i <- self ;;
  liftIO (TaskClient.waitForTasks (tasks i) taskUids
            (resolved_waitOptions waitOptions)).

Definition waitForTask (taskUid : Z) (waitOptions : option object) : M value :=
  i <- self ;;
  liftIO (TaskClient.waitForTask (tasks i) taskUid
            (resolved_waitOptions waitOptions)).

(** *** Stats *)

Definition getStats : M value :=
  i <- self ;;
  liftIO (HttpRequests.get (index_url i "/stats") VUndefined VUndefined).

(** *** Documents *)

(** The immediately invoked function computing [fields] in
    [getDocuments] and [getDocument]. *)
Definition joined_fields {S} (parameters : option object) : Comp S value :=
  if Array_isArray (opt_field parameters "fields")
  then optional_join (opt_field parameters "fields")
  else ret VUndefined.

Definition getDocuments (parameters : option object) : M value :=
  i <- self ;;
  fields <- joined_fields parameters ;;
  liftIO (HttpRequests.get (index_url i "/documents")
            (VObj (removeUndefinedFromObject
                     (<["fields" := fields]> (spread parameters))))
            VUndefined).

Definition getDocument (documentId : value) (parameters : option object)
  : M value :=
  i <- self ;;
  fields <- joined_fields parameters ;;
  liftIO (HttpRequests.get
            (index_url i ("/documents/" +:+ to_string documentId))
            (VObj (removeUndefinedFromObject
                     (<["fields" := fields]> (spread parameters))))
            VUndefined).

Definition addDocuments (documents : list value) (options : value) : M value :=
  i <- self ;;
  task <- liftIO (HttpRequests.post (index_url i "/documents")
                    (Arr documents) options VUndefined) ;;
  EnqueuedTask.new task.

(** The request configuration [{ headers: { 'Content-Type': contentType } }]. *)
Definition content_type_config (contentType : value) : value :=
  VObj {["headers" := VObj {["Content-Type" := contentType]}]}.

Definition addDocumentsFromString (documents : string) (contentType queryParams : value)
  : M value :=
  i <- self ;;
  task <- liftIO (HttpRequests.post (index_url i "/documents")
                    (VStr documents) queryParams
                    (content_type_config contentType)) ;;
  EnqueuedTask.new task.

(** The loop [for (let i = 0; i < documents.length; i += batchSize)]
    shared, up to the method called on each slice, by
    [addDocumentsInBatches] and [updateDocumentsInBatches].  [pos] is
    the loop variable; [fuel] bounds the number of iterations. *)
Fixpoint batches (send : list value → M value) (fuel : nat)
    (documents : list value) (batchSize pos : Z) (updates : list value)
  : M (list value) :=
  if (pos <? Z.of_nat (length documents))%Z then
    match fuel with
    | O => diverge
    | S fuel' =>
        task <- send (slice documents pos (pos + batchSize)) ;;
        batches send fuel' documents batchSize (pos + batchSize)
                (updates ++ [task])
    end
  else ret updates.

Definition addDocumentsInBatches (fuel : nat) (documents : list value)
    (batchSize : option Z) (options : value) : M value :=
  updates <- batches (λ chunk, addDocuments chunk options) fuel documents
                     (default 1000%Z batchSize) 0 [] ;;
  ret (Arr updates).

Definition updateDocuments (documents : list value) (options : value) : M value :=
  i <- self ;;
  task <- liftIO (HttpRequests.put (index_url i "/documents")
                    (Arr documents) options VUndefined) ;;
  EnqueuedTask.new task.

Definition updateDocumentsInBatches (fuel : nat) (documents : list value)
    (batchSize : option Z) (options : value) : M value :=
  updates <- batches (λ chunk, updateDocuments chunk options) fuel documents
                     (default 1000%Z batchSize) 0 [] ;;
  ret (Arr updates).

Definition updateDocumentsFromString (documents : string)
    (contentType queryParams : value) : M value :=
  i <- self ;;
  task <- liftIO (HttpRequests.put (index_url i "/documents")
                    (VStr documents) queryParams
                    (content_type_config contentType)) ;;
  EnqueuedTask.new task.

Definition deleteDocument (documentId : value) : M value :=
  i <- self ;;
  task <- liftIO (HttpRequests.delete
                    (index_url i ("/documents/" +:+ to_string documentId))
                    VUndefined VUndefined VUndefined) ;;
  stamp "enqueuedAt" task.

Definition deleteDocuments (documentsIds : value) : M value :=
  i <- self ;;
  task <- liftIO (HttpRequests.post (index_url i "/documents/delete-batch")
                    documentsIds VUndefined VUndefined) ;;
  EnqueuedTask.new task.

Definition deleteAllDocuments : M value :=
  i <- self ;;
  task <- liftIO (HttpRequests.delete (index_url i "/documents")
                    VUndefined VUndefined VUndefined) ;;
  stamp "enqueuedAt" task.

(** *** Settings

    The settings methods differ in the path segment, in the transport
    method they call and in how they turn the answer into the returned
    handle; three helpers carry what they share. *)

(** [return await this.httpRequest.get(url)] *)
Definition fetched (rest : string) : M value :=
  i <- self ;;
  liftIO (HttpRequests.get (index_url i rest) VUndefined VUndefined).

(** [const task = await this.httpRequest.verb(url, data)]
    [return new EnqueuedTask(task)] *)
Definition wrapped (verb : string → value → value → value → IO value)
    (rest : string) (data : value) : M value :=
  i <- self ;;
  task <- liftIO (verb (index_url i rest) data VUndefined VUndefined) ;;
  EnqueuedTask.new task.

(** [const task = await this.httpRequest.verb(url, data)]
    [task.k = new Date(task.enqueuedAt)]
    [return task] *)
Definition stamped (k : string)
    (verb : string → value → value → value → IO value)
    (rest : string) (data : value) : M value :=
  i <- self ;;
  task <- liftIO (verb (index_url i rest) data VUndefined VUndefined) ;;
  stamp k task.

Definition getSettings : M value := fetched "/settings".

Definition updateSettings (settings : value) : M value :=
  stamped "enqueued" HttpRequests.patch "/settings" settings.

Definition resetSettings : M value :=
  stamped "enqueuedAt" HttpRequests.delete "/settings" VUndefined.

Definition getPagination : M value := fetched "/settings/pagination".

Definition updatePagination (pagination : value) : M value :=
  wrapped HttpRequests.patch "/settings/pagination" pagination.

Definition resetPagination : M value :=
  wrapped HttpRequests.delete "/settings/pagination" VUndefined.

Definition getSynonyms : M value := fetched "/settings/synonyms".

Definition updateSynonyms (synonyms : value) : M value :=
  wrapped HttpRequests.put "/settings/synonyms" synonyms.

Definition resetSynonyms : M value :=
  stamped "enqueuedAt" HttpRequests.delete "/settings/synonyms" VUndefined.

Definition getStopWords : M value := fetched "/settings/stop-words".

Definition updateStopWords (stopWords : value) : M value :=
  wrapped HttpRequests.put "/settings/stop-words" stopWords.

Definition resetStopWords : M value :=
  stamped "enqueuedAt" HttpRequests.delete "/settings/stop-words" VUndefined.

Definition getRankingRules : M value := fetched "/settings/ranking-rules".

Definition updateRankingRules (rankingRules : value) : M value :=
  wrapped HttpRequests.put "/settings/ranking-rules" rankingRules.

Definition resetRankingRules : M value :=
  stamped "enqueuedAt" HttpRequests.delete "/settings/ranking-rules" VUndefined.

Definition getDistinctAttribute : M value :=
  fetched "/settings/distinct-attribute".

Definition updateDistinctAttribute (distinctAttribute : value) : M value :=
  wrapped HttpRequests.put "/settings/distinct-attribute" distinctAttribute.

Definition resetDistinctAttribute : M value :=
  stamped "enqueuedAt" HttpRequests.delete "/settings/distinct-attribute"
          VUndefined.

Definition getFilterableAttributes : M value :=
  fetched "/settings/filterable-attributes".

Definition updateFilterableAttributes (filterableAttributes : value) : M value :=
  wrapped HttpRequests.put "/settings/filterable-attributes"
          filterableAttributes.

Definition resetFilterableAttributes : M value :=
  stamped "enqueuedAt" HttpRequests.delete "/settings/filterable-attributes"
          VUndefined.

Definition getSortableAttributes : M value :=
  fetched "/settings/sortable-attributes".

Definition updateSortableAttributes (sortableAttributes : value) : M value :=
  wrapped HttpRequests.put "/settings/sortable-attributes" sortableAttributes.

Definition resetSortableAttributes : M value :=
  stamped "enqueuedAt" HttpRequests.delete "/settings/sortable-attributes"
          VUndefined.

Definition getSearchableAttributes : M value :=
  fetched "/settings/searchable-attributes".

Definition updateSearchableAttributes (searchableAttributes : value) : M value :=
  wrapped HttpRequests.put "/settings/searchable-attributes"
          searchableAttributes.

Definition resetSearchableAttributes : M value :=
  stamped "enqueuedAt" HttpRequests.delete "/settings/searchable-attributes"
          VUndefined.

Definition getDisplayedAttributes : M value :=
  fetched "/settings/displayed-attributes".

Definition updateDisplayedAttributes (displayedAttributes : value) : M value :=
  wrapped HttpRequests.put "/settings/displayed-attributes"
          displayedAttributes.

Definition resetDisplayedAttributes : M value :=
  stamped "enqueuedAt" HttpRequests.delete "/settings/displayed-attributes"
          VUndefined.

Definition getTypoTolerance : M value := fetched "/settings/typo-tolerance".

Definition updateTypoTolerance (typoTolerance : value) : M value :=
  stamped "enqueuedAt" HttpRequests.patch "/settings/typo-tolerance"
          typoTolerance.

Definition resetTypoTolerance : M value :=
  stamped "enqueuedAt" HttpRequests.delete "/settings/typo-tolerance"
          VUndefined.

Definition getFaceting : M value := fetched "/settings/faceting".

Definition updateFaceting (faceting : value) : M value :=
  wrapped HttpRequests.patch "/settings/faceting" faceting.

Definition resetFaceting : M value :=
  wrapped HttpRequests.delete "/settings/faceting" VUndefined.
End Class.
End Index.

(** ** The public interface as data *)

(** One constructor per method of the class, with its arguments. *)
Inductive Call : Type :=
  | Search (query : value) (options : option object) (config : value)
  | SearchGet (query : value) (options : option object) (config : value)
  | GetRawInfo
  | FetchInfo
  | FetchPrimaryKey
  | Create (u : string) (options : option object)
  | Update (data : value)
  | Delete
  | GetTasks (parameters : option object)
  | GetTask (taskUid : Z)
  | WaitForTasks (taskUids : list Z) (waitOptions : option object)
  | WaitForTask (taskUid : Z) (waitOptions : option object)
  | GetStats
  | GetDocuments (parameters : option object)
  | GetDocument (documentId : value) (parameters : option object)
  | AddDocuments (documents : list value) (options : value)
  | AddDocumentsFromString (documents : string) (contentType queryParams : value)
  | AddDocumentsInBatches (documents : list value) (batchSize : option Z)
                          (options : value)
  | UpdateDocuments (documents : list value) (options : value)
  | UpdateDocumentsInBatches (documents : list value) (batchSize : option Z)
                             (options : value)
  | UpdateDocumentsFromString (documents : string) (contentType queryParams : value)
  | DeleteDocument (documentId : value)
  | DeleteDocuments (documentsIds : value)
  | DeleteAllDocuments
  | GetSettings
  | UpdateSettings (settings : value)
  | ResetSettings
  | GetPagination
  | UpdatePagination (pagination : value)
  | ResetPagination
  | GetSynonyms
  | UpdateSynonyms (synonyms : value)
  | ResetSynonyms
  | GetStopWords
  | UpdateStopWords (stopWords : value)
  | ResetStopWords
  | GetRankingRules
  | UpdateRankingRules (rankingRules : value)
  | ResetRankingRules
  | GetDistinctAttribute
  | UpdateDistinctAttribute (distinctAttribute : value)
  | ResetDistinctAttribute
  | GetFilterableAttributes
  | UpdateFilterableAttributes (filterableAttributes : value)
  | ResetFilterableAttributes
  | GetSortableAttributes
  | UpdateSortableAttributes (sortableAttributes : value)
  | ResetSortableAttributes
  | GetSearchableAttributes
  | UpdateSearchableAttributes (searchableAttributes : value)
  | ResetSearchableAttributes
  | GetDisplayedAttributes
  | UpdateDisplayedAttributes (displayedAttributes : value)
  | ResetDisplayedAttributes
  | GetTypoTolerance
  | UpdateTypoTolerance (typoTolerance : value)
  | ResetTypoTolerance
  | GetFaceting
  | UpdateFaceting (faceting : value)
  | ResetFaceting.

(** What a method hands back: a value, or the handle itself ([fetchInfo]
    returns [this]). *)
Inductive Returned : Type :=
  | Value (v : value)
  | Handle (i : Index).

Definition as_value (c : M value) : M Returned := v <- c ;; ret (Value v).

Section Dispatch.
Context `{Host}.

(** Running a call; [fuel] bounds the iterations of the batch loops. *)
Definition invoke (fuel : nat) (c : Call) : M Returned :=
  match c with
  | Search q o cfg => as_value (Index.search q o cfg)
  | SearchGet q o cfg => as_value (Index.searchGet q o cfg)
  | GetRawInfo => as_value Index.getRawInfo
  | FetchInfo => i <- Index.fetchInfo ;; ret (Handle i)
  | FetchPrimaryKey => as_value Index.fetchPrimaryKey
  | Create u o => as_value (Index.create u o)
  | Update d => as_value (Index.update d)
  | Delete => as_value Index.delete
  | GetTasks p => as_value (Index.getTasks p)
  | GetTask t => as_value (Index.getTask t)
  | WaitForTasks ts o => as_value (Index.waitForTasks ts o)
  | WaitForTask t o => as_value (Index.waitForTask t o)
  | GetStats => as_value Index.getStats
  | GetDocuments p => as_value (Index.getDocuments p)
  | GetDocument d p => as_value (Index.getDocument d p)
  | AddDocuments d o => as_value (Index.addDocuments d o)
  | AddDocumentsFromString d ct q => as_value (Index.addDocumentsFromString d ct q)
  | AddDocumentsInBatches d b o => as_value (Index.addDocumentsInBatches fuel d b o)
  | UpdateDocuments d o => as_value (Index.updateDocuments d o)
  | UpdateDocumentsInBatches d b o =>
      as_value (Index.updateDocumentsInBatches fuel d b o)
  | UpdateDocumentsFromString d ct q =>
      as_value (Index.updateDocumentsFromString d ct q)
  | DeleteDocument d => as_value (Index.deleteDocument d)
  | DeleteDocuments ds => as_value (Index.deleteDocuments ds)
  | DeleteAllDocuments => as_value Index.deleteAllDocuments
  | GetSettings => as_value Index.getSettings
  | UpdateSettings x => as_value (Index.updateSettings x)
  | ResetSettings => as_value Index.resetSettings
  | GetPagination => as_value Index.getPagination
  | UpdatePagination x => as_value (Index.updatePagination x)
  | ResetPagination => as_value Index.resetPagination
  | GetSynonyms => as_value Index.getSynonyms
  | UpdateSynonyms x => as_value (Index.updateSynonyms x)
  | ResetSynonyms => as_value Index.resetSynonyms
  | GetStopWords => as_value Index.getStopWords
  | UpdateStopWords x => as_value (Index.updateStopWords x)
  | ResetStopWords => as_value Index.resetStopWords
  | GetRankingRules => as_value Index.getRankingRules
  | UpdateRankingRules x => as_value (Index.updateRankingRules x)
  | ResetRankingRules => as_value Index.resetRankingRules
  | GetDistinctAttribute => as_value Index.getDistinctAttribute
  | UpdateDistinctAttribute x => as_value (Index.updateDistinctAttribute x)
  | ResetDistinctAttribute => as_value Index.resetDistinctAttribute
  | GetFilterableAttributes => as_value Index.getFilterableAttributes
  | UpdateFilterableAttributes x => as_value (Index.updateFilterableAttributes x)
  | ResetFilterableAttributes => as_value Index.resetFilterableAttributes
  | GetSortableAttributes => as_value Index.getSortableAttributes
  | UpdateSortableAttributes x => as_value (Index.updateSortableAttributes x)
  | ResetSortableAttributes => as_value Index.resetSortableAttributes
  | GetSearchableAttributes => as_value Index.getSearchableAttributes
  | UpdateSearchableAttributes x => as_value (Index.updateSearchableAttributes x)
  | ResetSearchableAttributes => as_value Index.resetSearchableAttributes
  | GetDisplayedAttributes => as_value Index.getDisplayedAttributes
  | UpdateDisplayedAttributes x => as_value (Index.updateDisplayedAttributes x)
  | ResetDisplayedAttributes => as_value Index.resetDisplayedAttributes
  | GetTypoTolerance => as_value Index.getTypoTolerance
  | UpdateTypoTolerance x => as_value (Index.updateTypoTolerance x)
  | ResetTypoTolerance => as_value Index.resetTypoTolerance
  | GetFaceting => as_value Index.getFaceting
  | UpdateFaceting x => as_value (Index.updateFaceting x)
  | ResetFaceting => as_value Index.resetFaceting
  end.

(** The three methods that fetch the index information. *)
Definition is_info_fetch (c : Call) : bool :=
  match c with
  | GetRawInfo | FetchInfo | FetchPrimaryKey => true
  | _ => false
  end.
End Dispatch.

(** ** Vocabulary of the statements *)

(** A computation that leaves the handle as it found it. *)
Definition keeps_handle {A} (c : M A) : Prop := ∀ s, this (c s).2 = this s.

(** A wait option as the caller gave it: missing when the options, or the
    field, were omitted or [undefined]. *)
Definition or_default (given : option value) (dflt : Z) : value :=
  match given with
  | None | Some VUndefined => VNum dflt
  | Some v => v
  end.

(** The settings whose value is a list (a map of lists for the synonyms). *)
Inductive ListSetting : Type :=
  | StopWords
  | Synonyms
  | RankingRules
  | FilterableAttributes
  | SortableAttributes
  | SearchableAttributes
  | DisplayedAttributes.

(** The sub-resource of each list-valued setting under [settings/]. *)
Definition segment (ls : ListSetting) : string :=
  match ls with
  | StopWords => "stop-words"
  | Synonyms => "synonyms"
  | RankingRules => "ranking-rules"
  | FilterableAttributes => "filterable-attributes"
  | SortableAttributes => "sortable-attributes"
  | SearchableAttributes => "searchable-attributes"
  | DisplayedAttributes => "displayed-attributes"
  end.

(** The message of the error [searchGet] raises on an array filter. *)
Definition filter_format_message : string :=
  "The filter query parameter should be in string format when using searchGet".

(** The array-valued search parameters. *)
Definition search_array_params : list string :=
  ["sort"; "facets"; "attributesToRetrieve"; "attributesToCrop";
   "attributesToHighlight"].

(** A value on which [?.join(',')] can be called: nullish or an array. *)
Definition joinable (v : value) : bool :=
  match v with VUndefined | VNull | VArr _ _ => true | _ => false end.

(** The number of chunks of size [b] in [n] documents: [n / b] rounded up. *)
Definition chunk_count (n b : Z) : Z := ((n + b - 1) / b)%Z.

(** Chunk [k]: the documents at positions [k * b] up to, not including,
    [k * b + b]. *)
Definition chunk {A} (documents : list A) (b : Z) (k : nat) : list A :=
  take (Z.to_nat b) (drop (k * Z.to_nat b) documents).

Definition chunks {A} (documents : list A) (b : Z) : list (list A) :=
  chunk documents b <$> seq 0 (Z.to_nat (chunk_count (Z.of_nat (length documents)) b)).

Section Vocabulary.
Context `{Host}.

(** The request carrying one chunk of documents. *)
Definition chunk_request (m : Method) (i : Index) (options : value)
    (c : list value) : Request :=
  mkRequest m (Index.index_url i "/documents") options (Arr c) VUndefined.

(** [t] is the task handle made from the answer of exchange [ex]. *)
Definition handle_of (ex : Exchange) (t : value) : Prop :=
  ∃ res, answer (reply ex) = Success res ∧ EnqueuedTask.make res = Some t.

(** What a batch method did when run from [s] with result [run], the
    documents being cut into [cs]: it touched nothing but the record of
    exchanges, to which it added requests for the chunks in order, one
    each; when it returns, there is one request per chunk and the result
    is the array of the handles made from the answers, in that order;
    when a request or a handle fails, the requests sent are those of the
    first chunks; it does not run out of fuel. *)
Definition batch_run (m : Method) (options : value) (cs : list (list value))
    (s : State) (run : outcome value * State) : Prop :=
  this run.2 = this s
  ∧ ∃ new, exchanges (world run.2) = exchanges (world s) ++ new
           ∧ match run.1 with
             | Ret v =>
                 sent <$> new = chunk_request m (this s) options <$> cs
                 ∧ ∃ ts, v = Arr ts ∧ Forall2 handle_of new ts
             | Throw _ =>
                 sent <$> new `prefix_of` chunk_request m (this s) options <$> cs
             | OutOfFuel => False
             end.

(** An array-valued parameter as a GET request carries it: the
    comma-joined text of its elements; nothing when there is no array. *)
Definition comma_joined (v : value) : option value :=
  match v with
  | VArr elems _ => Some (VStr (Array_join elems))
  | _ => None
  end.

(** The request [getRawInfo] sends for a handle. *)
Definition info_request (i : Index) : Request :=
  mkRequest GET (Index.index_url i "") VUndefined VUndefined VUndefined.

Definition update_setting (ls : ListSetting) : value → M value :=
  match ls with
  | StopWords => Index.updateStopWords
  | Synonyms => Index.updateSynonyms
  | RankingRules => Index.updateRankingRules
  | FilterableAttributes => Index.updateFilterableAttributes
  | SortableAttributes => Index.updateSortableAttributes
  | SearchableAttributes => Index.updateSearchableAttributes
  | DisplayedAttributes => Index.updateDisplayedAttributes
  end.

Definition reset_setting (ls : ListSetting) : M value :=
  match ls with
  | StopWords => Index.resetStopWords
  | Synonyms => Index.resetSynonyms
  | RankingRules => Index.resetRankingRules
  | FilterableAttributes => Index.resetFilterableAttributes
  | SortableAttributes => Index.resetSortableAttributes
  | SearchableAttributes => Index.resetSearchableAttributes
  | DisplayedAttributes => Index.resetDisplayedAttributes
  end.

(** The run of a method that sends the one request [rq] and turns the
    server's answer into its result with the pure step [finish]: the
    exchange is recorded, its duration passes, the handle is untouched;
    a failed request and a failed [finish] raise. *)
Definition exchange_run (rq : Request) (finish : value → option value)
    (s : State) : outcome value * State :=
  let rp := network (world s) rq in
  (match answer rp with
   | Success res =>
       match finish res with Some v => Ret v | None => Throw TypeError end
   | Failure err => Throw (TransportError err)
   end,
   mkState (this s)
           (mkWorld (exchanges (world s) ++ [mkExchange rq rp])
                    (clock (world s) + Z.of_N (took rp)))).

(** The poll of one task. *)
Definition task_request (taskUid : Z) : Request :=
  mkRequest GET ("tasks/" +:+ to_string (VNum taskUid))
            VUndefined VUndefined VUndefined.

Definition terminal_task (t : value) : Prop :=
  ∃ status, prop t "status" = Some status ∧ Task.is_terminal status = true.

(** The exchanges [seg] are a completed wait for [taskUid] with result
    [t]: all of them poll that task, and [t] is the task made from the
    answer to the last of them, with a terminal status. *)
Definition waited_for (taskUid : Z) (t : value) (seg : list Exchange) : Prop :=
  Forall (λ ex, sent ex = task_request taskUid) seg
  ∧ ∃ ex res, last seg = Some ex
              ∧ answer (reply ex) = Success res
              ∧ Task.make res = Some t
              ∧ terminal_task t.

(** [c] is such a method; the request may mention the handle's [uid]. *)
Definition sends (rq : Index → Request) (finish : value → option value)
    (c : M value) : Prop :=
  ∀ s, c s = exchange_run (rq (this s)) finish s.

(** The methods whose result is one task handle. *)
Definition returns_task_handle (c : Call) : bool :=
  match c with
  | Create _ _ | Update _ | Delete
  | AddDocuments _ _ | AddDocumentsFromString _ _ _
  | UpdateDocuments _ _ | UpdateDocumentsFromString _ _ _
  | DeleteDocument _ | DeleteDocuments _ | DeleteAllDocuments
  | UpdateSettings _ | ResetSettings
  | UpdatePagination _ | ResetPagination
  | UpdateSynonyms _ | ResetSynonyms
  | UpdateStopWords _ | ResetStopWords
  | UpdateRankingRules _ | ResetRankingRules
  | UpdateDistinctAttribute _ | ResetDistinctAttribute
  | UpdateFilterableAttributes _ | ResetFilterableAttributes
  | UpdateSortableAttributes _ | ResetSortableAttributes
  | UpdateSearchableAttributes _ | ResetSearchableAttributes
  | UpdateDisplayedAttributes _ | ResetDisplayedAttributes
  | UpdateTypoTolerance _ | ResetTypoTolerance
  | UpdateFaceting _ | ResetFaceting => true
  | _ => false
  end.

Definition is_updateSettings (c : Call) : bool :=
  match c with UpdateSettings _ => true | _ => false end.
End Vocabulary.

(** ** A sample host

    A server that enqueues a task for every write, describes the index on
    a read, and reports a task as processing until the clock reaches 100;
    every exchange takes 10 ms. *)

Definition sample_task (n : Z) (status : string) : value :=
  VObj (<["taskUid" := VNum n]>
       (<["uid" := VNum n]>
       (<["indexUid" := VStr "movies"]>
       (<["status" := VStr status]>
       (<["type" := VStr "settingsUpdate"]>
       (<["enqueuedAt" := VStr "2022-12-01T10:00:00Z"]> ∅)))))).

Definition sample_index : value :=
  VObj (<["uid" := VStr "movies"]>
       (<["primaryKey" := VStr "id"]>
       (<["createdAt" := VStr "2022-11-01T09:00:00Z"]>
       (<["updatedAt" := VStr "2022-12-01T10:00:00Z"]> ∅)))).

Definition sample_network (w : World) (rq : Request) : Reply :=
  let n := Z.of_nat (length (exchanges w)) in
  mkReply
    (Success
       (match method rq with
        | GET =>
            if String.prefix "tasks/" (url rq)
            then sample_task n (if (100 <=? clock w)%Z then "succeeded" else "processing")
            else sample_index
        | _ => sample_task n "enqueued"
        end))
    10.

(** A stand-in for date parsing (the length of the text) and decimal
    numerals for numbers: enough to run the examples. *)
Definition sample_host : Host :=
  {| network := sample_network;
     Date_time := λ v, match v with
                       | VStr s => Some (Z.of_nat (String.length s))
                       | VNum n => Some n
                       | _ => None
                       end;
     ToString := λ v, match v with VNum n => pretty n | _ => "" end |}.

Definition sample_handle : Index :=
  mkIndex "movies" VUndefined VUndefined VUndefined
          (Task.client (H := sample_host) (Z.to_nat 6000)).

Definition sample_state : State := mkState sample_handle (mkWorld [] 0).

(** Five documents, and search options with a string filter and a sort. *)
Definition sample_documents : list value :=
  (λ n, VObj {["id" := VNum n]}) <$> [1; 2; 3; 4; 5]%Z.

Definition sample_options : object :=
  <["filter" := VStr "genre = scifi"]>
  (<["sort" := Arr [VStr "title:asc"; VStr "year:desc"]]> ∅).

(** The array filter of the spec's example. *)
Definition sample_array_filter : value :=
  Arr [VStr "genre = scifi"; VStr "year > 2000"].

(** The number of documents a request carries. *)
Definition documents_sent (ex : Exchange) : nat :=
  match body (sent ex) with VArr elems _ => length elems | _ => 0 end.

(** ** Vocabulary of the further statements *)

(** The documents a request carries in its body. *)
Definition documents_of (ex : Exchange) : list value :=
  match body (sent ex) with VArr elems _ => elems | _ => [] end.

(** A property as [removeUndefinedFromObject] lets it through: left out
    when its value is [undefined]. *)
Definition carried (v : value) : option value :=
  if is_undefined v then None else Some v.

(** The search parameters that [searchGet] rewrites. *)
Definition rewritten_search_params : list string :=
  "filter" :: search_array_params.

(** A value that has properties of its own. *)
Definition is_object (v : value) : bool :=
  match v with VObj _ | VArr _ _ | VDate _ _ => true | _ => false end.

(** The methods that hand the work to the task client, and the two batch
    methods: the only ones that may send more than one request. *)
Definition delegates_or_batches (c : Call) : bool :=
  match c with
  | GetTasks _ | GetTask _ | WaitForTasks _ _ | WaitForTask _ _
  | AddDocumentsInBatches _ _ _ | UpdateDocumentsInBatches _ _ _ => true
  | _ => false
  end.

Definition is_searchGet (c : Call) : bool :=
  match c with SearchGet _ _ _ => true | _ => false end.

(** The getters without parameters. *)
Definition is_plain_read (c : Call) : bool :=
  match c with
  | GetStats | GetSettings | GetPagination | GetSynonyms | GetStopWords
  | GetRankingRules | GetDistinctAttribute | GetFilterableAttributes
  | GetSortableAttributes | GetSearchableAttributes | GetDisplayedAttributes
  | GetTypoTolerance | GetFaceting => true
  | _ => false
  end.

(** The methods that assign the converted enqueue time to a property of
    the answer and return the answer. *)
Definition converts_in_place (c : Call) : bool :=
  match c with
  | Update _ | DeleteDocument _ | DeleteAllDocuments
  | UpdateSettings _ | ResetSettings
  | ResetSynonyms | ResetStopWords | ResetRankingRules
  | ResetDistinctAttribute | ResetFilterableAttributes
  | ResetSortableAttributes | ResetSearchableAttributes
  | ResetDisplayedAttributes
  | UpdateTypoTolerance _ | ResetTypoTolerance => true
  | _ => false
  end.

(** The property they assign. *)
Definition assigned_property (c : Call) : string :=
  match c with UpdateSettings _ => "enqueued" | _ => "enqueuedAt" end.

(** The settings resources: the settings as a whole and each of the
    eleven sub-resources. *)
Inductive SettingsResource : Type :=
  | AllSettings
  | OnPagination
  | OnSynonyms
  | OnStopWords
  | OnRankingRules
  | OnDistinctAttribute
  | OnFilterableAttributes
  | OnSortableAttributes
  | OnSearchableAttributes
  | OnDisplayedAttributes
  | OnTypoTolerance
  | OnFaceting.

(** The path of a settings resource below [indexes/{uid}]. *)
Definition settings_path (r : SettingsResource) : string :=
  match r with
  | AllSettings => "/settings"
  | OnPagination => "/settings/pagination"
  | OnSynonyms => "/settings/synonyms"
  | OnStopWords => "/settings/stop-words"
  | OnRankingRules => "/settings/ranking-rules"
  | OnDistinctAttribute => "/settings/distinct-attribute"
  | OnFilterableAttributes => "/settings/filterable-attributes"
  | OnSortableAttributes => "/settings/sortable-attributes"
  | OnSearchableAttributes => "/settings/searchable-attributes"
  | OnDisplayedAttributes => "/settings/displayed-attributes"
  | OnTypoTolerance => "/settings/typo-tolerance"
  | OnFaceting => "/settings/faceting"
  end.

(** The verb of its update: PATCH where the value is an object of
    optional fields, PUT elsewhere. *)
Definition update_verb (r : SettingsResource) : Method :=
  match r with
  | AllSettings | OnPagination | OnTypoTolerance | OnFaceting => PATCH
  | _ => PUT
  end.

Section FurtherVocabulary.
Context `{Host}.

Definition read_setting (r : SettingsResource) : M value :=
match r with
| AllSettings => Index.getSettings
| OnPagination => Index.getPagination
| OnSynonyms => Index.getSynonyms
| OnStopWords => Index.getStopWords
| OnRankingRules => Index.getRankingRules
| OnDistinctAttribute => Index.getDistinctAttribute
| OnFilterableAttributes => Index.getFilterableAttributes
| OnSortableAttributes => Index.getSortableAttributes
| OnSearchableAttributes => Index.getSearchableAttributes
| OnDisplayedAttributes => Index.getDisplayedAttributes
| OnTypoTolerance => Index.getTypoTolerance
| OnFaceting => Index.getFaceting
end.

Definition write_setting (r : SettingsResource) : value → M value :=
match r with
| AllSettings => Index.updateSettings
| OnPagination => Index.updatePagination
| OnSynonyms => Index.updateSynonyms
| OnStopWords => Index.updateStopWords
| OnRankingRules => Index.updateRankingRules
| OnDistinctAttribute => Index.updateDistinctAttribute
| OnFilterableAttributes => Index.updateFilterableAttributes
| OnSortableAttributes => Index.updateSortableAttributes
| OnSearchableAttributes => Index.updateSearchableAttributes
| OnDisplayedAttributes => Index.updateDisplayedAttributes
| OnTypoTolerance => Index.updateTypoTolerance
| OnFaceting => Index.updateFaceting
end.

Definition clear_setting (r : SettingsResource) : M value :=
match r with
| AllSettings => Index.resetSettings
| OnPagination => Index.resetPagination
| OnSynonyms => Index.resetSynonyms
| OnStopWords => Index.resetStopWords
| OnRankingRules => Index.resetRankingRules
| OnDistinctAttribute => Index.resetDistinctAttribute
| OnFilterableAttributes => Index.resetFilterableAttributes
| OnSortableAttributes => Index.resetSortableAttributes
| OnSearchableAttributes => Index.resetSearchableAttributes
| OnDisplayedAttributes => Index.resetDisplayedAttributes
| OnTypoTolerance => Index.resetTypoTolerance
| OnFaceting => Index.resetFaceting
end.

(** A request addressed to the indexes, or to the index of the handle and
  what lies below it. *)
Definition addressed_to (i : Index) (rq : Request) : Prop :=
url rq = "indexes" ∨ ∃ rest, url rq = Index.index_url i rest.

(** The exchange [ex] went well: its answer made a task handle. *)
Definition handled (ex : Exchange) : Prop := ∃ t, handle_of ex t.

(** The exchange [ex] is what made a batch method raise [e]: the request
  failed, or no task handle could be made from its answer. *)
Definition failed_with (ex : Exchange) (e : Error) : Prop :=
(∃ err, answer (reply ex) = Failure err ∧ e = TransportError err)
∨ (∃ res, answer (reply ex) = Success res
          ∧ EnqueuedTask.make res = None ∧ e = TypeError).

(** The run [run] from [s] made exactly one exchange: the request [rq]
  was put to the network as it stood in [s], the exchange is the last
  of the record and its duration has passed; a failed request made the
  method raise the transport's error; the run did not exhaust fuel. *)
Definition one_exchange {A} (rq : Request) (s : State)
  (run : outcome A * State) : Prop :=
world run.2
= mkWorld (exchanges (world s) ++ [mkExchange rq (network (world s) rq)])
          (clock (world s) + Z.of_N (took (network (world s) rq)))
∧ (∀ err, answer (network (world s) rq) = Failure err →
          run.1 = Throw (TransportError err))
∧ run.1 ≠ OutOfFuel.
End FurtherVocabulary.

Section BatchVocabulary.
Context `{Host}.

(** What a batch method that raised [e] had done, the documents being cut
  into [cs]: the requests of some first chunks had gone well, the
  request of the next chunk is the last of the record and is what made
  the method raise; no later chunk was sent. *)
Definition stopped_batch (m : Method) (options : value) (cs : list (list value))
  (s : State) (run : outcome value * State) : Prop :=
∀ e, run.1 = Throw e →
  ∃ done ex,
    exchanges (world run.2) = exchanges (world s) ++ done ++ [ex]
    ∧ length done < length cs
    ∧ sent <$> (done ++ [ex])
      = take (S (length done)) (chunk_request m (this s) options <$> cs)
    ∧ Forall handled done
    ∧ failed_with ex e.

(** What a batch method that returned had sent: requests that, put end to
  end, carry the documents given, none of them empty. *)
Definition covering_batch (documents : list value) (s : State)
  (run : outcome value * State) : Prop :=
match run.1 with
| Ret _ =>
    ∃ new, exchanges (world run.2) = exchanges (world s) ++ new
           ∧ concat (documents_of <$> new) = documents
           ∧ Forall (λ ex, documents_of ex ≠ []) new
| _ => True
end.
End BatchVocabulary.

(** ** A host that fails

    The sample server, except that the second request it receives is
    refused. *)

Definition refusal : value :=
  VObj (<["code" := VStr "index_not_found"]> ∅).

Definition flaky_network (w : World) (rq : Request) : Reply :=
  if decide (length (exchanges w) = 1) then mkReply (Failure refusal) 10
  else sample_network w rq.

Definition flaky_host : Host :=
  {| network := flaky_network;
     Date_time := Date_time (Host := sample_host);
     ToString := ToString (Host := sample_host) |}.

(** A sample state whose handle already knows a primary key. *)
Definition keyed_state : State :=
  mkState (mkIndex "movies" (VStr "isbn") VUndefined VUndefined
                   (Task.client (H := sample_host) 0))
          (mkWorld [] 0).

(** What a run has added to the record when the batch size is negative:
    a first request with the documents but the last [-b] of them, and
    after it requests without documents only. *)
Definition shrinking_batch (documents : list value) (b : Z) (s : State)
    (run : outcome value * State) : Prop :=
  ∃ new, exchanges (world run.2) = exchanges (world s) ++ new
         ∧ match new with
           | [] => True
           | first :: rest =>
               documents_of first
               = take (Z.to_nat (Z.of_nat (length documents) + b)) documents
               ∧ Forall (λ ex, documents_of ex = []) rest
           end.

(** ** Vocabulary of the runs that loop *)

Section LoopVocabulary.
Context `{Host}.

(** The server answers every request with something a task handle can be
  made from. *)
Definition answers_with_a_task : Prop :=
∀ w rq, ∃ res t, answer (network w rq) = Success res
                 ∧ EnqueuedTask.make res = Some t.

(** The server answers every poll with a task in a terminal status. *)
Definition answers_with_a_finished_task : Prop :=
∀ w taskUid, ∃ res t, answer (network w (task_request taskUid)) = Success res
                      ∧ Task.make res = Some t
                      ∧ terminal_task t.

(** What a batch method did over a positive batch size, when run from [s]
  with result [run], the documents being cut into [cs]: the handle is
  untouched and the record of exchanges has grown by [new].  A run that
  returned has sent the requests of the chunks in order, one each and no
  other, and its result is the array of the task handles made from the
  answers in that order.  A run that raised [e] has sent the requests of
  some first chunks, all answered with a task but the last, and the
  last is what made it raise: a raise needs a request that went wrong.
  So a run whose exchanges all went well has returned, and at a server
  that answers every request with a task every run returns; no run is
  left unfinished. *)
Definition chunked_run (m : Method) (options : value) (cs : list (list value))
  (s : State) (run : outcome value * State) : Prop :=
this run.2 = this s
∧ (answers_with_a_task → ∃ ts, run.1 = Ret (Arr ts))
∧ ∃ new, exchanges (world run.2) = exchanges (world s) ++ new
         ∧ match run.1 with
           | Ret v =>
               sent <$> new = chunk_request m (this s) options <$> cs
               ∧ ∃ ts, v = Arr ts ∧ Forall2 handle_of new ts
           | Throw e =>
               ∃ done ex,
                 new = done ++ [ex]
                 ∧ length done < length cs
                 ∧ sent <$> new
                   = take (S (length done))
                          (chunk_request m (this s) options <$> cs)
                 ∧ Forall handled done
                 ∧ failed_with ex e
           | OutOfFuel => False
           end
         ∧ (Forall handled new → ∃ ts, run.1 = Ret (Arr ts)).

(** What a batch method did over a batch size [b] that is not positive,
  when run from [s] for [fuel] iterations with result [run]: it did not
  return.  Either it is still looping at the bound, having sent one
  request per iteration, each answered with a task; or it raised [e]
  because its last request went wrong, the ones before it having been
  answered with a task.  So a run whose exchanges all went well is out
  of fuel, whatever the fuel, and so is every run at a server that
  answers every request with a task.  With [b = 0] each request carries
  an empty chunk. *)
Definition stuck_run {A} (fuel : nat) (b : Z) (s : State)
  (run : outcome A * State) : Prop :=
(answers_with_a_task → run.1 = OutOfFuel)
∧ ∃ new, exchanges (world run.2) = exchanges (world s) ++ new
       ∧ match run.1 with
         | Ret _ => False
         | Throw e =>
             ∃ done ex, new = done ++ [ex]
                        ∧ Forall handled done ∧ failed_with ex e
         | OutOfFuel => length new = fuel ∧ Forall handled new
         end
       ∧ (Forall handled new → run.1 = OutOfFuel ∧ length new = fuel)
       ∧ (b = 0%Z → Forall (λ ex, body (sent ex) = Arr []) new).

(** The exchanges [seg] end with a poll answered with a task in a
  terminal status. *)
Definition ended_well (seg : list Exchange) : Prop :=
∃ ex res t, last seg = Some ex
            ∧ answer (reply ex) = Success res
            ∧ Task.make res = Some t
            ∧ terminal_task t.

(** The exchanges [seg] are a wait for [taskUid] that raised [e]: all of
  them poll that task, and the last of them is what went wrong: the
  request failed, or no task could be made from its answer, or the task
  was not in a terminal status when [timeOutMs] had elapsed since the
  start of the wait; the error then carries that task and the time
  elapsed. *)
Definition wait_failed (taskUid timeOutMs : Z) (seg : list Exchange)
  (e : Error) : Prop :=
Forall (λ ex, sent ex = task_request taskUid) seg
∧ ∃ ex, last seg = Some ex
        ∧ ((∃ err, answer (reply ex) = Failure err ∧ e = TransportError err)
           ∨ (∃ res, answer (reply ex) = Success res
                     ∧ Task.make res = None ∧ e = TypeError)
           ∨ (∃ res t status elapsed,
                 answer (reply ex) = Success res
                 ∧ Task.make res = Some t
                 ∧ prop t "status" = Some status
                 ∧ Task.is_terminal status = false
                 ∧ (timeOutMs <= elapsed)%Z
                 ∧ e = MeiliSearchTimeOutError t elapsed)).

(** The segments [segs] are the waits of a call on [taskUids] that did
  not return: the waits for some first ids, each completed, and then
  the wait for the next id, of which [P] holds. *)
Definition interrupted (taskUids : list Z) (segs : list (list Exchange))
  (P : Z → list Exchange → Prop) : Prop :=
∃ done seg ts taskUid,
  segs = done ++ [seg]
  ∧ Forall3 waited_for (take (length done) taskUids) ts done
  ∧ taskUids !! length done = Some taskUid
  ∧ P taskUid seg.
End LoopVocabulary.

(** * Properties *)

(** ** Running computations *)

Section Laws.
Context {S : Type}.

Lemma bind_assoc {A B C} (c : Comp S A) (k : A → Comp S B) (h : B → Comp S C) s :
  (y <- (x <- c ;; k x) ;; h y) s = (x <- c ;; y <- k x ;; h y) s.
Proof. unfold bind. destruct (c s) as [[a|e|] s']; reflexivity. Qed.

Lemma bind_ext {A B} (c : Comp S A) (k k' : A → Comp S B) s :
  (∀ a s', k a s' = k' a s') → (x <- c ;; k x) s = (x <- c ;; k' x) s.
Proof. intros E. unfold bind. destruct (c s) as [[a|e|] s']; auto. Qed.

Lemma bind_ext_l {A B} (c c' : Comp S A) (k : A → Comp S B) s :
  c s = c' s → (x <- c ;; k x) s = (x <- c' ;; k x) s.
Proof. intros E. unfold bind. rewrite E. reflexivity. Qed.
End Laws.

(** ** The handle is left alone *)

Create HintDb frame discriminated.

Section Frame.
Context `{Host}.

Lemma keeps_ret {A} (a : A) : keeps_handle (ret a).
Proof. intros s. reflexivity. Qed.

Lemma keeps_throw {A} e : keeps_handle (A := A) (throw e).
Proof. intros s. reflexivity. Qed.

Lemma keeps_diverge {A} : keeps_handle (A := A) diverge.
Proof. intros s. reflexivity. Qed.

Lemma keeps_self : keeps_handle self.
Proof. intros s. reflexivity. Qed.

Lemma keeps_attempt {A} (o : option A) : keeps_handle (attempt o).
Proof. destruct o; intros s; reflexivity. Qed.

Lemma keeps_liftIO {A} (c : IO A) : keeps_handle (liftIO c).
Proof. intros s. unfold liftIO. destruct (c (world s)). reflexivity. Qed.

Lemma keeps_bind {A B} (c : M A) (k : A → M B) :
  keeps_handle c → (∀ a, keeps_handle (k a)) → keeps_handle (x <- c ;; k x).
Proof.
  intros Hc Hk s. unfold bind. specialize (Hc s).
  destruct (c s) as [[a|e|] s1]; simpl in *; try assumption.
  rewrite Hk. assumption.
Qed.

Lemma keeps_batches send fuel documents batchSize pos updates :
  (∀ chunk, keeps_handle (send chunk)) →
  keeps_handle (Index.batches send fuel documents batchSize pos updates).
Proof.
  intros Hsend. revert pos updates.
  induction fuel as [|fuel IH]; intros pos updates; simpl;
    destruct (pos <? _)%Z; try apply keeps_ret; try apply keeps_diverge.
  apply keeps_bind; auto.
Qed.
End Frame.

#[export] Hint Resolve keeps_ret keeps_throw keeps_diverge keeps_self
  keeps_attempt keeps_liftIO : frame.

Ltac frame :=
  repeat first
    [ apply keeps_bind; [| intros ?]
    | apply keeps_batches; intros ?
    | match goal with |- keeps_handle (if ?b then _ else _) => destruct b end
    | solve [auto with frame] ].

Section Methods.
Context `{Host}.

Lemma keeps_new task : keeps_handle (EnqueuedTask.new task).
Proof. apply keeps_attempt. Qed.

Lemma keeps_stamp k task : keeps_handle (Index.stamp k task).
Proof. apply keeps_attempt. Qed.

Lemma keeps_wrapped verb rest data : keeps_handle (Index.wrapped verb rest data).
Proof. unfold Index.wrapped. frame. apply keeps_new. Qed.

Lemma keeps_stamped k verb rest data : keeps_handle (Index.stamped k verb rest data).
Proof. unfold Index.stamped. frame. apply keeps_stamp. Qed.

Lemma keeps_fetched rest : keeps_handle (Index.fetched rest).
Proof. unfold Index.fetched. frame. Qed.

Lemma keeps_optional_join v : keeps_handle (optional_join v).
Proof. apply keeps_attempt. Qed.

Lemma keeps_parseFilter v : keeps_handle (Index.parseFilter v).
Proof. unfold Index.parseFilter. frame. Qed.

Lemma keeps_joined_fields p : keeps_handle (Index.joined_fields p).
Proof. unfold Index.joined_fields. frame. apply keeps_optional_join. Qed.

(** The outcome of [getRawInfo], case by case on the server's answer. *)
Lemma getRawInfo_run s :
  let rq := mkRequest GET (Index.index_url (this s) "") VUndefined VUndefined VUndefined in
  let rp := network (world s) rq in
  let w' := mkWorld (exchanges (world s) ++ [mkExchange rq rp])
                    (clock (world s) + Z.of_N (took rp)) in
  Index.getRawInfo s =
    match answer rp with
    | Failure err => (Throw (TransportError err), mkState (this s) w')
    | Success res =>
        match prop res "primaryKey", prop res "updatedAt", prop res "createdAt" with
        | Some pk, Some u, Some c =>
            (Ret res, mkState (mkIndex (uid (this s)) pk (new_Date c) (new_Date u)
                                       (tasks (this s))) w')
        | _, _, _ => (Throw TypeError, mkState (this s) w')
        end
    end.
Proof.
  destruct s as [i w]. simpl.
  unfold Index.getRawInfo, bind, self, liftIO, HttpRequests.get,
    HttpRequests.request. simpl.
  destruct (answer _) as [res|err]; [|reflexivity].
  destruct res; reflexivity.
Qed.
End Methods.

#[export] Hint Resolve keeps_new keeps_stamp keeps_wrapped keeps_stamped keeps_fetched
  keeps_optional_join keeps_parseFilter keeps_joined_fields : frame.

Create HintDb methods discriminated.

#[export] Hint Unfold invoke as_value
  Index.search Index.searchGet Index.create Index.update Index.delete
  Index.getTasks Index.getTask Index.waitForTasks Index.waitForTask
  Index.getStats Index.getDocuments Index.getDocument Index.addDocuments
  Index.addDocumentsFromString Index.addDocumentsInBatches
  Index.updateDocuments Index.updateDocumentsInBatches
  Index.updateDocumentsFromString Index.deleteDocument Index.deleteDocuments
  Index.deleteAllDocuments Index.getSettings Index.updateSettings
  Index.resetSettings Index.getPagination Index.updatePagination
  Index.resetPagination Index.getSynonyms Index.updateSynonyms
  Index.resetSynonyms Index.getStopWords Index.updateStopWords
  Index.resetStopWords Index.getRankingRules Index.updateRankingRules
  Index.resetRankingRules Index.getDistinctAttribute
  Index.updateDistinctAttribute Index.resetDistinctAttribute
  Index.getFilterableAttributes Index.updateFilterableAttributes
  Index.resetFilterableAttributes Index.getSortableAttributes
  Index.updateSortableAttributes Index.resetSortableAttributes
  Index.getSearchableAttributes Index.updateSearchableAttributes
  Index.resetSearchableAttributes Index.getDisplayedAttributes
  Index.updateDisplayedAttributes Index.resetDisplayedAttributes
  Index.getTypoTolerance Index.updateTypoTolerance Index.resetTypoTolerance
  Index.getFaceting Index.updateFaceting Index.resetFaceting : methods.

Create HintDb settings discriminated.

#[export] Hint Unfold
  Index.updateSettings Index.resetSettings Index.updatePagination
  Index.resetPagination Index.updateSynonyms Index.resetSynonyms
  Index.updateStopWords Index.resetStopWords Index.updateRankingRules
  Index.resetRankingRules Index.updateDistinctAttribute
  Index.resetDistinctAttribute Index.updateFilterableAttributes
  Index.resetFilterableAttributes Index.updateSortableAttributes
  Index.resetSortableAttributes Index.updateSearchableAttributes
  Index.resetSearchableAttributes Index.updateDisplayedAttributes
  Index.resetDisplayedAttributes Index.updateTypoTolerance
  Index.resetTypoTolerance Index.updateFaceting Index.resetFaceting : settings.

Section CachedFields.
Context `{Host}.

Lemma keeps_invoke fuel c : is_info_fetch c = false → keeps_handle (invoke fuel c).
Proof.
  destruct c; simpl; intros E; try discriminate E; clear E;
    autounfold with methods; frame.
Qed.

(** C8.  A call of any method other than [getRawInfo], [fetchInfo] and
    [fetchPrimaryKey] leaves the handle, and so its cached [primaryKey],
    [createdAt] and [updatedAt], as it was.  Those three assign the cached
    fields when they return, and then the fields hold what the server's
    answer to the information request carries: its [primaryKey], and the
    dates made from its [updatedAt] and [createdAt]; when they raise, the
    handle is as it was. *)
Theorem cached_fields_frame (fuel : nat) (c : Call) (s : State) :
  let s' := (invoke fuel c s).2 in
  match is_info_fetch c, (invoke fuel c s).1 with
  | true, Ret _ =>
      uid (this s') = uid (this s)
      ∧ ∃ res, answer (network (world s) (info_request (this s))) = Success res
               ∧ prop res "primaryKey" = Some (primaryKey (this s'))
               ∧ new_Date <$> prop res "updatedAt" = Some (updatedAt (this s'))
               ∧ new_Date <$> prop res "createdAt" = Some (createdAt (this s'))
  | _, _ => this s' = this s
  end.
Proof.
  destruct (is_info_fetch c) eqn:E.
  - pose proof (getRawInfo_run s) as R. simpl in R.
    fold (info_request (this s)) in R.
    destruct c; try discriminate E; simpl;
      unfold as_value, Index.fetchInfo, Index.fetchPrimaryKey, bind;
      rewrite R; clear R;
      destruct (answer _) as [res|err]; simpl; try reflexivity;
      destruct (prop res "primaryKey") as [pk|] eqn:Epk; simpl; try reflexivity;
      destruct (prop res "updatedAt") as [u|] eqn:Eu; simpl; try reflexivity;
      destruct (prop res "createdAt") as [cr|] eqn:Ec; simpl; try reflexivity;
      try (split; [reflexivity|]; exists res; rewrite ?Epk, ?Eu, ?Ec; auto).
    all: unfold getProp; rewrite Epk; simpl.
    all: split; [reflexivity|]; exists res; rewrite ?Epk, ?Eu, ?Ec; auto.
  - simpl. pose proof (keeps_invoke fuel c E s) as K.
    destruct (invoke fuel c s) as [[r| |] s1]; exact K.
Qed.
End CachedFields.

(** ** One request, then the task handle *)

Section SingleRequest.
Context `{Host}.

(** A transport call followed by a pure step. *)
Lemma request_then_run m u q b cfg (finish : value → option value) (s : State) :
  (task <- liftIO (HttpRequests.request m u q b cfg) ;; attempt (finish task)) s
  = exchange_run (mkRequest m u q b cfg) finish s.
Proof.
  unfold exchange_run, bind, liftIO, HttpRequests.request, attempt. simpl.
  destruct (answer _) as [res|err]; [|reflexivity].
  destruct (finish res); reflexivity.
Qed.

Lemma request_run m u q b cfg (s : State) :
  liftIO (HttpRequests.request m u q b cfg) s
  = exchange_run (mkRequest m u q b cfg) Some s.
Proof.
  unfold exchange_run, liftIO, HttpRequests.request. simpl.
  destruct (answer _); reflexivity.
Qed.

Lemma sends_wrapped m verb rest data :
  (∀ u b q c, verb u b q c = HttpRequests.request m u q b c) →
  sends (λ i, mkRequest m (Index.index_url i rest) VUndefined data VUndefined)
        EnqueuedTask.make (Index.wrapped verb rest data).
Proof.
  intros E s. unfold Index.wrapped, EnqueuedTask.new.
  rewrite <- request_then_run. unfold bind at 1. simpl.
  apply bind_ext_l. rewrite E. reflexivity.
Qed.

Lemma sends_stamped k m verb rest data :
  (∀ u b q c, verb u b q c = HttpRequests.request m u q b c) →
  sends (λ i, mkRequest m (Index.index_url i rest) VUndefined data VUndefined)
        (Index.restamp k) (Index.stamped k verb rest data).
Proof.
  intros E s. unfold Index.stamped, Index.stamp.
  rewrite <- request_then_run. unfold bind at 1. simpl.
  apply bind_ext_l. rewrite E. reflexivity.
Qed.

Lemma sends_fetched rest :
  sends (λ i, mkRequest GET (Index.index_url i rest) VUndefined VUndefined VUndefined)
        Some (Index.fetched rest).
Proof. intros s. unfold Index.fetched. rewrite <- request_run. reflexivity. Qed.

Lemma make_enqueuedAt res v :
  EnqueuedTask.make res = Some v →
  ∃ e, prop res "enqueuedAt" = Some e ∧ prop v "enqueuedAt" = Some (new_Date e).
Proof.
  unfold EnqueuedTask.make. intros E.
  destruct (prop res "taskUid") as [a1|]; [|discriminate E].
  destruct (prop res "indexUid") as [a2|]; [|discriminate E].
  destruct (prop res "status") as [a3|]; [|discriminate E].
  destruct (prop res "type") as [a4|]; [|discriminate E].
  destruct (prop res "enqueuedAt") as [e|]; [|discriminate E].
  simpl in E. injection E as <-. exists e. split; [reflexivity|].
  simpl. unfold field. by simplify_map_eq.
Qed.

Lemma restamp_lookup k res v :
  Index.restamp k res = Some v →
  ∃ e, prop res "enqueuedAt" = Some e ∧ prop v k = Some (new_Date e)
       ∧ ∀ k', k' ≠ k → prop v k' = prop res k'.
Proof.
  unfold Index.restamp. intros E.
  destruct (prop res "enqueuedAt") as [e|] eqn:Ee; [|discriminate E].
  simpl in E. exists e. split; [reflexivity|].
  destruct res; simpl in E; try discriminate E; injection E as <-; simpl;
    unfold field; (split; [by rewrite lookup_insert_eq|]);
    intros k' Hk; by rewrite lookup_insert_ne.
Qed.
End SingleRequest.

(** ** Settings: overwrite with PUT, reset with DELETE *)

Section ListSettings.
Context `{Host}.

(** C6.  For each list-valued setting, the update method sends exactly
    one request: a PUT on [indexes/{uid}/settings/{segment}] whose body
    is the caller's value as given, whatever was sent before; the reset
    method sends exactly one request: a DELETE on the same path, without
    a body.  The update wraps the answer in a task handle, the reset
    converts the enqueue time of the answer in place. *)
Theorem list_settings_put_and_delete (ls : ListSetting) (v : value) :
  sends (λ i, mkRequest PUT (Index.index_url i ("/settings/" +:+ segment ls))
                        VUndefined v VUndefined)
        EnqueuedTask.make (update_setting ls v)
  ∧ sends (λ i, mkRequest DELETE (Index.index_url i ("/settings/" +:+ segment ls))
                          VUndefined VUndefined VUndefined)
          (Index.restamp "enqueuedAt") (reset_setting ls).
Proof.
  split; destruct ls; simpl;
    first [ by apply (sends_wrapped PUT) | by apply (sends_stamped _ DELETE) ].
Qed.
End ListSettings.

(** ** The enqueue time of a returned task handle *)

Section EnqueuedAt.
Context `{Host}.

(** The request of [updateSettings]. *)
Lemma sends_updateSettings settings :
  sends (λ i, mkRequest PATCH (Index.index_url i "/settings")
                        VUndefined settings VUndefined)
        (Index.restamp "enqueued") (Index.updateSettings settings).
Proof. by apply (sends_stamped _ PATCH). Qed.

(** C5, at [updateSettings].  When the server answers the PATCH on
    [settings] with a task object whose [enqueuedAt] is the text [raw],
    the method returns that object with [enqueuedAt] still the text
    [raw]; the date made from it is stored under the property
    [enqueued]. *)
Theorem updateSettings_enqueuedAt_stays_raw (settings : value) (s : State)
    (p : object) (raw : string) :
  answer (network (world s)
            (mkRequest PATCH (Index.index_url (this s) "/settings")
                       VUndefined settings VUndefined)) = Success (VObj p) →
  p !! "enqueuedAt" = Some (VStr raw) →
  ∃ t, (Index.updateSettings settings s).1 = Ret (VObj t)
       ∧ t !! "enqueuedAt" = Some (VStr raw)
       ∧ t !! "enqueued" = Some (new_Date (VStr raw)).
Proof.
  intros Hans Hp. rewrite sends_updateSettings. unfold exchange_run. simpl.
  rewrite Hans. unfold Index.restamp. simpl. unfold field. rewrite Hp. simpl.
  eexists. split; [reflexivity|]. split.
  - by rewrite lookup_insert_ne.
  - by rewrite lookup_insert_eq.
Qed.

(** The sibling methods do convert: every other method returning one
    task handle returns, under [enqueuedAt], the date made from the
    [enqueuedAt] of the answer to the request it sent last. *)
Lemma sends_enqueuedAt_parsed rq finish (c : M value) s v s' :
  sends rq finish c →
  finish = EnqueuedTask.make ∨ finish = Index.restamp "enqueuedAt" →
  as_value c s = (Ret (Value v), s') →
  ∃ ex res e, last (exchanges (world s')) = Some ex
              ∧ answer (reply ex) = Success res
              ∧ prop res "enqueuedAt" = Some e
              ∧ prop v "enqueuedAt" = Some (new_Date e).
Proof.
  intros Hc Hf E. unfold as_value, bind in E. rewrite Hc in E.
  unfold exchange_run in E.
  destruct (answer _) as [res|err] eqn:Ea; [|discriminate E].
  destruct (finish res) as [v'|] eqn:Ef; [|discriminate E].
  injection E as -> <-. simpl. rewrite last_snoc.
  eexists; exists res.
  destruct Hf as [-> | ->].
  - destruct (make_enqueuedAt _ _ Ef) as (e & He & Hv). eauto.
  - destruct (restamp_lookup _ _ _ Ef) as (e & He & Hv & _). eauto.
Qed.
End EnqueuedAt.

Section RequestTable.
Context `{Host}.

Ltac one_request :=
  intros s; autounfold with methods; unfold EnqueuedTask.new, Index.stamp;
  rewrite <- request_then_run; reflexivity.

Lemma sends_create u options :
  sends (λ _, mkRequest POST "indexes" VUndefined
                        (VObj (<["uid" := VStr u]> (spread options))) VUndefined)
        EnqueuedTask.make (Index.create u options).
Proof. one_request. Qed.

Lemma sends_update data :
  sends (λ i, mkRequest PATCH (Index.index_url i "") VUndefined data VUndefined)
        (Index.restamp "enqueuedAt") (Index.update data).
Proof. one_request. Qed.

Lemma sends_delete :
  sends (λ i, mkRequest DELETE (Index.index_url i "")
                        VUndefined VUndefined VUndefined)
        EnqueuedTask.make Index.delete.
Proof. one_request. Qed.

Lemma sends_addDocuments documents options :
  sends (λ i, mkRequest POST (Index.index_url i "/documents")
                        options (Arr documents) VUndefined)
        EnqueuedTask.make (Index.addDocuments documents options).
Proof. one_request. Qed.

Lemma sends_updateDocuments documents options :
  sends (λ i, mkRequest PUT (Index.index_url i "/documents")
                        options (Arr documents) VUndefined)
        EnqueuedTask.make (Index.updateDocuments documents options).
Proof. one_request. Qed.

Lemma sends_addDocumentsFromString documents contentType queryParams :
  sends (λ i, mkRequest POST (Index.index_url i "/documents") queryParams
                        (VStr documents) (Index.content_type_config contentType))
        EnqueuedTask.make
        (Index.addDocumentsFromString documents contentType queryParams).
Proof. one_request. Qed.

Lemma sends_updateDocumentsFromString documents contentType queryParams :
  sends (λ i, mkRequest PUT (Index.index_url i "/documents") queryParams
                        (VStr documents) (Index.content_type_config contentType))
        EnqueuedTask.make
        (Index.updateDocumentsFromString documents contentType queryParams).
Proof. one_request. Qed.

Lemma sends_deleteDocument documentId :
  sends (λ i, mkRequest DELETE
                (Index.index_url i ("/documents/" +:+ to_string documentId))
                VUndefined VUndefined VUndefined)
        (Index.restamp "enqueuedAt") (Index.deleteDocument documentId).
Proof. one_request. Qed.

Lemma sends_deleteDocuments documentsIds :
  sends (λ i, mkRequest POST (Index.index_url i "/documents/delete-batch")
                        VUndefined documentsIds VUndefined)
        EnqueuedTask.make (Index.deleteDocuments documentsIds).
Proof. one_request. Qed.

Lemma sends_deleteAllDocuments :
  sends (λ i, mkRequest DELETE (Index.index_url i "/documents")
                        VUndefined VUndefined VUndefined)
        (Index.restamp "enqueuedAt") Index.deleteAllDocuments.
Proof. one_request. Qed.

Ltac request_of :=
  lazymatch goal with
  | |- sends _ _ (Index.create _ _) => apply sends_create
  | |- sends _ _ (Index.update _) => apply sends_update
  | |- sends _ _ Index.delete => apply sends_delete
  | |- sends _ _ (Index.addDocuments _ _) => apply sends_addDocuments
  | |- sends _ _ (Index.updateDocuments _ _) => apply sends_updateDocuments
  | |- sends _ _ (Index.addDocumentsFromString _ _ _) =>
      apply sends_addDocumentsFromString
  | |- sends _ _ (Index.updateDocumentsFromString _ _ _) =>
      apply sends_updateDocumentsFromString
  | |- sends _ _ (Index.deleteDocument _) => apply sends_deleteDocument
  | |- sends _ _ (Index.deleteDocuments _) => apply sends_deleteDocuments
  | |- sends _ _ Index.deleteAllDocuments => apply sends_deleteAllDocuments
  | |- sends _ _ (Index.wrapped HttpRequests.put _ _) =>
      by apply (sends_wrapped PUT)
  | |- sends _ _ (Index.wrapped HttpRequests.patch _ _) =>
      by apply (sends_wrapped PATCH)
  | |- sends _ _ (Index.wrapped HttpRequests.delete _ _) =>
      by apply (sends_wrapped DELETE)
  | |- sends _ _ (Index.stamped _ HttpRequests.patch _ _) =>
      by apply (sends_stamped _ PATCH)
  | |- sends _ _ (Index.stamped _ HttpRequests.delete _ _) =>
      by apply (sends_stamped _ DELETE)
  end.

(** Every method returning one task handle, [updateSettings] apart,
    returns it with the enqueue time converted. *)
Lemma enqueuedAt_parsed_elsewhere fuel c s v s' :
  returns_task_handle c = true →
  is_updateSettings c = false →
  invoke fuel c s = (Ret (Value v), s') →
  ∃ ex res e, last (exchanges (world s')) = Some ex
              ∧ answer (reply ex) = Success res
              ∧ prop res "enqueuedAt" = Some e
              ∧ prop v "enqueuedAt" = Some (new_Date e).
Proof.
  intros Hr Hu E.
  destruct c; try discriminate Hr; try discriminate Hu; simpl in E;
    (eapply sends_enqueuedAt_parsed; [| |exact E];
     [autounfold with settings; request_of | auto]).
Qed.
End RequestTable.

(** ** Task client calls *)

Section TaskCalls.
Context `{Host}.

(** C7.  [waitForTask] and [waitForTasks] hand the task client an object
    with exactly the two fields [timeOutMs] and [intervalMs]; a field
    the caller left out (options omitted, field absent or [undefined])
    is 5000 for [timeOutMs] and 50 for [intervalMs], a field the caller
    gave is passed as given.  With no options at all the object is
    [{ timeOutMs: 5000, intervalMs: 50 }]. *)
Theorem wait_options_defaults (taskUid : Z) (taskUids : list Z)
    (waitOptions : option object) (s : State) :
  let passed : object :=
    <["timeOutMs" := or_default (waitOptions ≫= lookup "timeOutMs") 5000]>
    (<["intervalMs" := or_default (waitOptions ≫= lookup "intervalMs") 50]> ∅) in
  Index.waitForTask taskUid waitOptions s
    = liftIO (TaskClient.waitForTask (tasks (this s)) taskUid passed) s
  ∧ Index.waitForTasks taskUids waitOptions s
    = liftIO (TaskClient.waitForTasks (tasks (this s)) taskUids passed) s
  ∧ Index.resolved_waitOptions None
    = <["timeOutMs" := VNum 5000]> (<["intervalMs" := VNum 50]> ∅).
Proof.
  assert (R : Index.resolved_waitOptions waitOptions
              = <["timeOutMs" := or_default (waitOptions ≫= lookup "timeOutMs") 5000]>
                (<["intervalMs" := or_default (waitOptions ≫= lookup "intervalMs") 50]> ∅)).
  { unfold Index.resolved_waitOptions. rewrite insert_insert_ne by done.
    f_equal; [|f_equal];
      unfold default_param, opt_field, field, or_default;
      destruct waitOptions as [m|]; simpl; try reflexivity;
      match goal with |- context [m !! ?k] => destruct (m !! k) as [[]|] end;
      reflexivity. }
  simpl. rewrite <- R.
  split; [reflexivity|]. split; [reflexivity|].
  unfold Index.resolved_waitOptions. simpl. by rewrite insert_insert_ne.
Qed.

(** C10.  [getTasks] hands the task client the caller's query with
    [indexUids] set to the one-element array holding the handle's [uid]:
    whatever [indexUids] the caller gave is replaced, every other field
    is passed as given. *)
Theorem getTasks_pins_indexUids (parameters : option object) (s : State) :
  ∃ forwarded : object,
    Index.getTasks parameters s
      = liftIO (TaskClient.getTasks (tasks (this s)) forwarded) s
    ∧ forwarded !! "indexUids" = Some (Arr [VStr (uid (this s))])
    ∧ ∀ k, k ≠ "indexUids" → forwarded !! k = spread parameters !! k.
Proof.
  exists (<["indexUids" := Arr [VStr (uid (this s))]]> (spread parameters)).
  split; [reflexivity|]. split.
  - apply lookup_insert_eq.
  - intros k Hk. by rewrite lookup_insert_ne.
Qed.
End TaskCalls.

(** ** Search and document queries *)

Section Queries.
Context `{Host}.

Lemma removeUndefined_lookup (o : object) (k : string) :
  removeUndefinedFromObject o !! k
  = match o !! k with Some VUndefined => None | other => other end.
Proof.
  unfold removeUndefinedFromObject. rewrite map_lookup_filter.
  destruct (o !! k) as [v|]; simpl; [|reflexivity].
  destruct v; simpl; repeat case_guard; simpl in *; done.
Qed.

Lemma Array_join_strings (l : list string) :
  Array_join (VStr <$> l) = String.concat "," l.
Proof.
  unfold Array_join. f_equal.
  induction l as [|x l IH]; csimpl; [reflexivity|]. by rewrite IH.
Qed.

Lemma parseFilter_run {S} (f : value) (s : S) :
  Index.parseFilter f s
  = if Array_isArray f then (Throw (MeiliSearchError filter_format_message), s)
    else (Ret (if typeof_string f then f else VUndefined), s).
Proof. destruct f; reflexivity. Qed.

Lemma optional_join_run {S} (v : value) (s : S) :
  optional_join v s
  = match joined v with Some x => (Ret x, s) | None => (Throw TypeError, s) end.
Proof. unfold optional_join, attempt. destruct (joined v); reflexivity. Qed.

Lemma joined_joinable v :
  joinable v = true →
  ∃ x, joined v = Some x
       ∧ match x with VUndefined => None | other => Some other end = comma_joined v.
Proof. destruct v; simpl; intros E; try discriminate E; eauto. Qed.

Lemma joined_not_joinable v : joinable v = false → joined v = None.
Proof. destruct v; simpl; intros E; try discriminate E; reflexivity. Qed.

Lemma joined_fields_run {S} (parameters : option object) (s : S) :
  ∃ x, Index.joined_fields parameters s = (Ret x, s)
       ∧ match x with VUndefined => None | other => Some other end
         = comma_joined (opt_field parameters "fields").
Proof.
  unfold Index.joined_fields.
  destruct (opt_field parameters "fields"); simpl; eauto.
Qed.

(** The POST search: one request, the options in the body. *)
Lemma sends_search query options cfg :
  sends (λ i, mkRequest POST (Index.index_url i "/search") VUndefined
                (VObj (removeUndefinedFromObject (spread options ∪ {["q" := query]})))
                cfg)
        Some (Index.search query options cfg).
Proof. intros s. unfold Index.search. rewrite <- request_run. reflexivity. Qed.

Lemma search_body_lookup query options k v :
  opt_field options k = v → v ≠ VUndefined →
  removeUndefinedFromObject (spread options ∪ {["q" := query]}) !! k = Some v.
Proof.
  intros E Hv. rewrite removeUndefined_lookup.
  destruct options as [m|]; simpl in *; unfold field in E.
  - destruct (m !! k) as [x|] eqn:Ex; simpl in E; [|congruence].
    subst x. rewrite (lookup_union_Some_l _ _ _ _ Ex). by destruct v.
  - congruence.
Qed.
End Queries.

Section SearchGet.
Context `{Host}.

Ltac found J :=
  apply Exists_exists; eexists; split; [|exact J]; set_solver.

(** [searchGet], step by step: the filter check, the five joins, the
    request. *)
Lemma searchGet_run query options cfg s :
  let f := opt_field options "filter" in
  Index.searchGet query options cfg s =
    if Array_isArray f
    then (Throw (MeiliSearchError filter_format_message), s)
    else
      match joined (opt_field options "sort"),
            joined (opt_field options "facets"),
            joined (opt_field options "attributesToRetrieve"),
            joined (opt_field options "attributesToCrop"),
            joined (opt_field options "attributesToHighlight") with
      | Some x1, Some x2, Some x3, Some x4, Some x5 =>
          exchange_run
            (mkRequest GET (Index.index_url (this s) "/search")
               (VObj (removeUndefinedFromObject
                  (<["attributesToHighlight" := x5]>
                  (<["attributesToCrop" := x4]>
                  (<["attributesToRetrieve" := x3]>
                  (<["facets" := x2]>
                  (<["sort" := x1]>
                  (<["filter" := if typeof_string f then f else VUndefined]>
                  (spread options ∪ {["q" := query]})))))))))
               VUndefined cfg)
            Some s
      | _, _, _, _, _ => (Throw TypeError, s)
      end.
Proof.
  simpl. unfold Index.searchGet, bind. simpl.
  rewrite parseFilter_run. destruct (Array_isArray _); [reflexivity|].
  rewrite optional_join_run. destruct (joined _) as [x1|]; [|reflexivity].
  rewrite optional_join_run. destruct (joined _) as [x2|]; [|reflexivity].
  rewrite optional_join_run. destruct (joined _) as [x3|]; [|reflexivity].
  rewrite optional_join_run. destruct (joined _) as [x4|]; [|reflexivity].
  rewrite optional_join_run. destruct (joined _) as [x5|]; [|reflexivity].
  apply request_run.
Qed.

(** C1.  When the filter of the options is an array, [searchGet] raises
    the [MeiliSearchError] with the message about the string format and
    leaves the state as it was, so no request has been made, and the
    POST [search] with the same options sends one request whose body
    carries that filter value unchanged.  When the filter is anything
    else (a string, or absent), [searchGet] raises no such error: it
    sends its GET request, with the string filter in the query and an
    absent one left out, unless one of the array parameters is a value
    on which [join] cannot be called. *)
Theorem searchGet_array_filter_guard (query : value) (options : option object)
    (cfg : value) (s : State) :
  let f := opt_field options "filter" in
  if Array_isArray f then
    Index.searchGet query options cfg s
      = (Throw (MeiliSearchError filter_format_message), s)
    ∧ ∃ b, Index.search query options cfg s
             = exchange_run (mkRequest POST (Index.index_url (this s) "/search")
                                       VUndefined (VObj b) cfg) Some s
           ∧ b !! "filter" = Some f
  else
    (Index.searchGet query options cfg s = (Throw TypeError, s)
     ∧ Exists (λ k, joinable (opt_field options k) = false) search_array_params)
    ∨ ∃ p, Index.searchGet query options cfg s
             = exchange_run (mkRequest GET (Index.index_url (this s) "/search")
                                       (VObj p) VUndefined cfg) Some s
           ∧ p !! "filter" = if typeof_string f then Some f else None.
Proof.
  simpl. pose proof (searchGet_run query options cfg s) as R. simpl in R.
  destruct (Array_isArray (opt_field options "filter")) eqn:Ef.
  - split; [exact R|]. eexists. split; [apply sends_search|].
    apply search_body_lookup; [reflexivity|].
    destruct (opt_field options "filter"); discriminate.
  - unfold search_array_params.
    destruct (joinable (opt_field options "sort")) eqn:J1;
      [|left; rewrite R, (joined_not_joinable _ J1); split;
        [reflexivity | found J1]].
    destruct (joinable (opt_field options "facets")) eqn:J2;
      [|left; rewrite R, (joined_not_joinable _ J2); split;
        [by destruct (joined _) | found J2]].
    destruct (joinable (opt_field options "attributesToRetrieve")) eqn:J3;
      [|left; rewrite R, (joined_not_joinable _ J3); split;
        [by repeat destruct (joined _) | found J3]].
    destruct (joinable (opt_field options "attributesToCrop")) eqn:J4;
      [|left; rewrite R, (joined_not_joinable _ J4); split;
        [by repeat destruct (joined _) | found J4]].
    destruct (joinable (opt_field options "attributesToHighlight")) eqn:J5;
      [|left; rewrite R, (joined_not_joinable _ J5); split;
        [by repeat destruct (joined _) | found J5]].
    right.
    destruct (joined_joinable _ J1) as (x1 & E1 & _).
    destruct (joined_joinable _ J2) as (x2 & E2 & _).
    destruct (joined_joinable _ J3) as (x3 & E3 & _).
    destruct (joined_joinable _ J4) as (x4 & E4 & _).
    destruct (joined_joinable _ J5) as (x5 & E5 & _).
    rewrite E1, E2, E3, E4, E5 in R.
    eexists. split; [exact R|].
    rewrite removeUndefined_lookup.
    do 5 (rewrite lookup_insert_ne by done). rewrite lookup_insert_eq.
    destruct (opt_field options "filter"); reflexivity || discriminate Ef.
Qed.
End SearchGet.

Section ArrayParameters.
Context `{Host}.

Lemma insert_joined_lookup (x : value) (o : object) (k : string) (v : value) :
  match x with VUndefined => None | other => Some other end = comma_joined v →
  removeUndefinedFromObject (<[k := x]> o) !! k = comma_joined v.
Proof.
  intros E. rewrite removeUndefined_lookup, lookup_insert_eq, <- E.
  by destruct x.
Qed.

Lemma getDocuments_run parameters s :
  ∃ p, Index.getDocuments parameters s
         = exchange_run (mkRequest GET (Index.index_url (this s) "/documents")
                                   (VObj p) VUndefined VUndefined) Some s
       ∧ p !! "fields" = comma_joined (opt_field parameters "fields").
Proof.
  destruct (joined_fields_run parameters s) as (x & Ex & Hx).
  eexists. split.
  - unfold Index.getDocuments, bind. simpl. rewrite Ex. apply request_run.
  - by apply insert_joined_lookup.
Qed.

Lemma getDocument_run documentId parameters s :
  ∃ p, Index.getDocument documentId parameters s
         = exchange_run
             (mkRequest GET
                (Index.index_url (this s) ("/documents/" +:+ to_string documentId))
                (VObj p) VUndefined VUndefined) Some s
       ∧ p !! "fields" = comma_joined (opt_field parameters "fields").
Proof.
  destruct (joined_fields_run parameters s) as (x & Ex & Hx).
  eexists. split.
  - unfold Index.getDocument, bind. simpl. rewrite Ex. apply request_run.
  - by apply insert_joined_lookup.
Qed.

(** C4.  [searchGet], when it sends its request (the filter is not an
    array and each of [sort], [facets], [attributesToRetrieve],
    [attributesToCrop], [attributesToHighlight] is nullish or an array),
    carries each of these five in the query as the comma-joined text of
    its elements when it is an array, and leaves it out otherwise.
    [getDocuments] and [getDocument] do the same with [fields].  The POST
    [search] carries every array-valued option in its body as the array
    it was given.  The joined text of an array of strings is the strings
    separated by commas. *)
Theorem get_requests_join_arrays (query cfg documentId : value)
    (options parameters : option object) (s : State) :
  (Array_isArray (opt_field options "filter") = false →
   Forall (λ k, joinable (opt_field options k) = true) search_array_params →
   ∃ p, Index.searchGet query options cfg s
          = exchange_run (mkRequest GET (Index.index_url (this s) "/search")
                                    (VObj p) VUndefined cfg) Some s
        ∧ Forall (λ k, p !! k = comma_joined (opt_field options k))
                 search_array_params)
  ∧ (∃ p, Index.getDocuments parameters s
            = exchange_run (mkRequest GET (Index.index_url (this s) "/documents")
                                      (VObj p) VUndefined VUndefined) Some s
          ∧ p !! "fields" = comma_joined (opt_field parameters "fields"))
  ∧ (∃ p, Index.getDocument documentId parameters s
            = exchange_run
                (mkRequest GET
                   (Index.index_url (this s)
                      ("/documents/" +:+ to_string documentId))
                   (VObj p) VUndefined VUndefined) Some s
          ∧ p !! "fields" = comma_joined (opt_field parameters "fields"))
  ∧ (∃ b, Index.search query options cfg s
            = exchange_run (mkRequest POST (Index.index_url (this s) "/search")
                                      VUndefined (VObj b) cfg) Some s
          ∧ ∀ k elems props, opt_field options k = VArr elems props →
                             b !! k = Some (VArr elems props))
  ∧ ∀ l : list string,
      comma_joined (Arr (VStr <$> l)) = Some (VStr (String.concat "," l)).
Proof.
  split; [|split; [|split; [|split]]].
  - intros Hf Hj.
    pose proof (searchGet_run query options cfg s) as R. simpl in R.
    rewrite Hf in R. unfold search_array_params in *.
    apply Forall_cons in Hj as [J1 Hj]. apply Forall_cons in Hj as [J2 Hj].
    apply Forall_cons in Hj as [J3 Hj]. apply Forall_cons in Hj as [J4 Hj].
    apply Forall_cons in Hj as [J5 _].
    destruct (joined_joinable _ J1) as (x1 & E1 & C1).
    destruct (joined_joinable _ J2) as (x2 & E2 & C2).
    destruct (joined_joinable _ J3) as (x3 & E3 & C3).
    destruct (joined_joinable _ J4) as (x4 & E4 & C4).
    destruct (joined_joinable _ J5) as (x5 & E5 & C5).
    rewrite E1, E2, E3, E4, E5 in R.
    eexists. split; [exact R|].
    repeat apply Forall_cons_2; try apply Forall_nil_2.
    + rewrite removeUndefined_lookup. do 4 (rewrite lookup_insert_ne by done).
      rewrite lookup_insert_eq, <- C1. by destruct x1.
    + rewrite removeUndefined_lookup. do 3 (rewrite lookup_insert_ne by done).
      rewrite lookup_insert_eq, <- C2. by destruct x2.
    + rewrite removeUndefined_lookup. do 2 (rewrite lookup_insert_ne by done).
      rewrite lookup_insert_eq, <- C3. by destruct x3.
    + rewrite removeUndefined_lookup. rewrite lookup_insert_ne by done.
      rewrite lookup_insert_eq, <- C4. by destruct x4.
    + by apply insert_joined_lookup.
  - apply getDocuments_run.
  - apply getDocument_run.
  - eexists. split; [apply sends_search|].
    intros k elems props E. by apply search_body_lookup.
  - intros l. simpl. by rewrite Array_join_strings.
Qed.
End ArrayParameters.

(** ** Batches *)

Section Chunks.
Context {A : Type}.
Implicit Types (documents : list A) (b : Z) (k : nat).

Lemma chunk_count_lt n b (k : Z) :
  (0 < b)%Z → (k < chunk_count n b ↔ k * b < n)%Z.
Proof.
  intros Hb. unfold chunk_count. split.
  - intros Hk. destruct (Z_lt_le_dec (k * b) n) as [|Hge]; [assumption|].
    exfalso. assert ((n + b - 1) / b < k + 1)%Z; [|lia].
    apply Z.div_lt_upper_bound; lia.
  - intros Hk. assert (k + 1 <= (n + b - 1) / b)%Z; [|lia].
    apply Z.div_le_lower_bound; lia.
Qed.

Lemma chunk_count_nonneg n b : (0 < b)%Z → (0 <= n)%Z → (0 <= chunk_count n b)%Z.
Proof. intros Hb Hn. unfold chunk_count. apply Z.div_pos; lia. Qed.

Lemma chunk_count_le n b : (0 < b)%Z → (0 <= n)%Z → (chunk_count n b <= n)%Z.
Proof.
  intros Hb Hn. destruct (Z_lt_le_dec n (chunk_count n b)) as [Hlt|]; [|assumption].
  apply chunk_count_lt in Hlt; [|assumption]. nia.
Qed.

(** Inside the array, JavaScript's [slice] is the chunk. *)
Lemma slice_chunk documents b k :
  (0 < b)%Z → (Z.of_nat k * b < Z.of_nat (length documents))%Z →
  slice documents (Z.of_nat k * b) (Z.of_nat k * b + b) = chunk documents b k.
Proof.
  intros Hb Hk. unfold slice, chunk.
  assert (0 <= Z.of_nat k * b)%Z as Hpos by lia.
  destruct (Z.ltb_spec (Z.of_nat k * b) 0) as [|_]; [lia|].
  destruct (Z.ltb_spec (Z.of_nat k * b + b) 0) as [|_]; [lia|].
  rewrite (Z.min_l (Z.of_nat k * b)) by lia.
  replace (Z.to_nat (Z.of_nat k * b)) with (k * Z.to_nat b) by lia.
  destruct (Z_le_gt_dec (Z.of_nat k * b + b) (Z.of_nat (length documents))).
  - rewrite Z.min_l by lia. f_equal. lia.
  - rewrite Z.min_r by lia.
    rewrite !take_ge; [reflexivity | |]; rewrite length_drop; lia.
Qed.

Lemma chunks_length documents b :
  length (chunks documents b)
  = Z.to_nat (chunk_count (Z.of_nat (length documents)) b).
Proof. unfold chunks. by rewrite length_fmap, length_seq. Qed.

Lemma chunks_lookup documents b k c :
  chunks documents b !! k = Some c → c = chunk documents b k.
Proof.
  unfold chunks. rewrite list_lookup_fmap. intros E.
  destruct (seq _ _ !! k) as [j|] eqn:Ej; [|discriminate E].
  apply lookup_seq in Ej as [-> _]. simpl in E. congruence.
Qed.

(** A chunk is full, except that the last one holds what is left. *)
Lemma chunk_length documents b k :
  (0 < b)%Z → k < length (chunks documents b) →
  0 < length (chunk documents b k)
  ∧ length (chunk documents b k)
    = if decide (S k < length (chunks documents b)) then Z.to_nat b
      else length documents - k * Z.to_nat b.
Proof.
  intros Hb. rewrite chunks_length. intros Hk.
  assert (Z.of_nat k * b < Z.of_nat (length documents))%Z as Hin.
  { apply chunk_count_lt; [assumption|]. lia. }
  unfold chunk. rewrite length_take, length_drop. split; [nia|].
  case_decide as Hnext.
  - assert (Z.of_nat (S k) * b < Z.of_nat (length documents))%Z.
    { apply chunk_count_lt; [assumption|]. lia. }
    nia.
  - assert (¬ (Z.of_nat (S k) * b < Z.of_nat (length documents))%Z).
    { intros Hlt. apply (chunk_count_lt _ _ _ Hb) in Hlt. lia. }
    nia.
Qed.
End Chunks.

Section BatchLoop.
Context `{Host}.

(** With a positive batch size the loop is a walk over the chunks. *)
Lemma batches_for_each send documents b (j : nat) :
  (0 < b)%Z →
  ∀ (k fuel : nat) updates s,
    Z.of_nat (k + j) = chunk_count (Z.of_nat (length documents)) b →
    j ≤ fuel →
    Index.batches send fuel documents b (Z.of_nat k * b) updates s
    = (ys <- for_each send (chunk documents b <$> seq k j) ;;
       ret (updates ++ ys)) s.
Proof.
  intros Hb. induction j as [|j IH]; intros k fuel updates s Hc Hfuel.
  - assert (¬ (Z.of_nat k * b < Z.of_nat (length documents))%Z) as Hout.
    { intros Hlt. apply (chunk_count_lt _ _ _ Hb) in Hlt. lia. }
    destruct fuel; simpl;
      (destruct (Z.ltb_spec (Z.of_nat k * b) (Z.of_nat (length documents)));
       [lia|]); unfold bind, ret; simpl; by rewrite app_nil_r.
  - assert (Z.of_nat k * b < Z.of_nat (length documents))%Z as Hin.
    { apply chunk_count_lt; [assumption|]. lia. }
    destruct fuel as [|fuel]; [lia|]. simpl.
    destruct (Z.ltb_spec (Z.of_nat k * b) (Z.of_nat (length documents)));
      [|lia].
    rewrite slice_chunk by assumption.
    rewrite bind_assoc. apply bind_ext. intros task s1.
    replace (Z.of_nat k * b + b)%Z with (Z.of_nat (S k) * b)%Z by lia.
    rewrite IH by lia.
    rewrite bind_assoc. apply bind_ext. intros ys s2.
    unfold bind, ret. simpl. by rewrite <- app_assoc.
Qed.

(** One request after the other: what a walk over [xs] leaves in the
    record when each call sends the request [rq x]. *)
Lemma for_each_sends {X} (rq : X → Index → Request) finish (f : X → M value) :
  (∀ x, sends (rq x) finish (f x)) →
  ∀ xs s,
    this (for_each f xs s).2 = this s
    ∧ ∃ new, exchanges (world (for_each f xs s).2) = exchanges (world s) ++ new
             ∧ match (for_each f xs s).1 with
               | Ret ts =>
                   sent <$> new = (λ x, rq x (this s)) <$> xs
                   ∧ Forall2 (λ ex t, ∃ res, answer (reply ex) = Success res
                                            ∧ finish res = Some t) new ts
               | Throw _ =>
                   sent <$> new `prefix_of` (λ x, rq x (this s)) <$> xs
               | OutOfFuel => False
               end.
Proof.
  intros Hf. induction xs as [|x xs IH]; intros s.
  - simpl. split; [reflexivity|]. exists []. rewrite app_nil_r.
    split; [reflexivity|]. split; [reflexivity|constructor].
  - pose proof (Hf x s) as Ex. unfold exchange_run in Ex.
    set (rp := network (world s) (rq x (this s))) in *.
    set (s1 := mkState _ _) in *.
    simpl. unfold bind. rewrite Ex. clear Ex.
    destruct (answer rp) as [res|err] eqn:Ea.
    + destruct (finish res) as [t|] eqn:Et.
      * destruct (IH s1) as (Hthis & new & Hnew & Hr).
        destruct (for_each f xs s1) as [[ts|e|] s2]; simpl in *.
        -- split; [assumption|].
           exists (mkExchange (rq x (this s)) rp :: new).
           rewrite Hnew, <- app_assoc. split; [reflexivity|].
           destruct Hr as [Hsent Hts]. split.
           ++ csimpl. by rewrite Hsent.
           ++ constructor; [|assumption]. eauto.
        -- split; [assumption|].
           exists (mkExchange (rq x (this s)) rp :: new).
           rewrite Hnew, <- app_assoc. split; [reflexivity|].
           csimpl. by apply prefix_cons.
        -- destruct Hr.
      * simpl. split; [reflexivity|]. exists [mkExchange (rq x (this s)) rp].
        split; [reflexivity|]. csimpl. apply prefix_cons, prefix_nil.
    + simpl. split; [reflexivity|]. exists [mkExchange (rq x (this s)) rp].
      split; [reflexivity|]. csimpl. apply prefix_cons, prefix_nil.
Qed.

(** A batch method over a positive batch size. *)
Lemma batches_run m send fuel documents b options s :
  (∀ c, sends (λ i, chunk_request m i options c) EnqueuedTask.make (send c)) →
  (0 < b)%Z → length documents ≤ fuel →
  batch_run m options (chunks documents b) s
    ((updates <- Index.batches send fuel documents b 0 [] ;; ret (Arr updates)) s).
Proof.
  intros Hsend Hb Hfuel.
  pose proof (chunk_count_nonneg (Z.of_nat (length documents)) b Hb
                ltac:(lia)) as Hc0.
  pose proof (chunk_count_le (Z.of_nat (length documents)) b Hb
                ltac:(lia)) as Hcn.
  assert (E : ∀ s0, Index.batches send fuel documents b 0 [] s0
              = (ys <- for_each send (chunks documents b) ;; ret ([] ++ ys)) s0).
  { intros s0.
    apply (batches_for_each send documents b
             (Z.to_nat (chunk_count (Z.of_nat (length documents)) b)) Hb 0);
      lia. }
  unfold batch_run, bind. rewrite E. unfold bind.
  destruct (for_each_sends (λ c i, chunk_request m i options c)
              EnqueuedTask.make send Hsend (chunks documents b) s)
    as (Hthis & new & Hnew & Hr).
  destruct (for_each send (chunks documents b) s) as [[ts|e|] s1]; simpl in *.
  - split; [assumption|]. exists new. split; [assumption|].
    destruct Hr as [Hsent Hts]. split; [assumption|]. eauto.
  - split; [assumption|]. eauto.
  - destruct Hr.
Qed.
End BatchLoop.

Section EmptySlice.
Context `{Host}.

Lemma slice_nothing {A} (l : list A) : slice l 0 (0 + 0) = [].
Proof.
  unfold slice. change (0 + 0)%Z with 0%Z. change (0 <? 0)%Z with false.
  cbv iota. by rewrite Z.sub_diag.
Qed.
End EmptySlice.

(** ** Waiting for tasks *)

Section Waiting.
Context `{Host}.

Lemma getTask_run taskUid w :
  let rp := network w (task_request taskUid) in
  Task.getTask taskUid w
  = (match answer rp with
     | Success res =>
         match Task.make res with Some t => Ret t | None => Throw TypeError end
     | Failure err => Throw (TransportError err)
     end,
     mkWorld (exchanges w ++ [mkExchange (task_request taskUid) rp])
             (clock w + Z.of_N (took rp))).
Proof.
  simpl. unfold Task.getTask, bind, HttpRequests.get, HttpRequests.request.
  fold (task_request taskUid).
  destruct (answer _) as [res|err]; [|reflexivity].
  unfold Task.new, attempt. destruct (Task.make res); reflexivity.
Qed.

(** One round of the polling loop. *)
Lemma poll_unfold taskUid t0 timeOutMs intervalMs fuel w :
  let rp := network w (task_request taskUid) in
  let w1 := mkWorld (exchanges w ++ [mkExchange (task_request taskUid) rp])
                    (clock w + Z.of_N (took rp)) in
  Task.poll (S fuel) taskUid t0 timeOutMs intervalMs w =
    match answer rp with
    | Failure err => (Throw (TransportError err), w1)
    | Success res =>
        match Task.make res with
        | None => (Throw TypeError, w1)
        | Some task =>
            match prop task "status" with
            | None => (Throw TypeError, w1)
            | Some status =>
                if Task.is_terminal status then (Ret task, w1)
                else if (timeOutMs <=? clock w1 - t0)%Z
                then (Throw (MeiliSearchTimeOutError task (clock w1 - t0)), w1)
                else Task.poll fuel taskUid t0 timeOutMs intervalMs
                       (mkWorld (exchanges w1) (clock w1 + Z.max intervalMs 0))
            end
        end
    end.
Proof.
  simpl. unfold bind. rewrite getTask_run.
  destruct (answer _) as [res|err]; [|reflexivity].
  destruct (Task.make res) as [task|]; [|reflexivity].
  unfold getProp, attempt.
  destruct (prop task "status") as [status|]; [|reflexivity]. simpl.
  destruct (Task.is_terminal status); [reflexivity|].
  destruct (timeOutMs <=? _)%Z; reflexivity.
Qed.

(** A task that was made has a status. *)
Lemma make_status res t :
  Task.make res = Some t → ∃ status, prop t "status" = Some status.
Proof.
  unfold Task.make. intros E.
  repeat match type of E with
         | context [prop res ?k] =>
             destruct (prop res k); simpl in E; [|discriminate E]
         end.
  injection E as <-. simpl. eauto.
Qed.

Lemma last_later {A} (x : A) l y : last l = Some y → last (x :: l) = Some y.
Proof. destruct l; [discriminate | trivial]. Qed.

(** The polling loop only polls its task.  What it returns is the
    terminal task of its last poll; what it raises comes from its last
    poll; when it runs out of fuel its last poll, if any, did not end
    the wait. *)
Lemma poll_outcome taskUid t0 timeOutMs intervalMs fuel :
  ∀ w, let run := Task.poll fuel taskUid t0 timeOutMs intervalMs w in
       ∃ seg, exchanges run.2 = exchanges w ++ seg
              ∧ Forall (λ ex, sent ex = task_request taskUid) seg
              ∧ match run.1 with
                | Ret t => waited_for taskUid t seg
                | Throw e => wait_failed taskUid timeOutMs seg e
                | OutOfFuel => ¬ ended_well seg
                end.
Proof.
  induction fuel as [|fuel IH]; intros w; cbv zeta.
  - exists []. rewrite app_nil_r.
    split; [reflexivity|]. split; [constructor|].
    intros (ex & ? & ? & Hlast & _). discriminate Hlast.
  - rewrite poll_unfold.
    set (rp := network w (task_request taskUid)).
    set (ex := mkExchange (task_request taskUid) rp).
    set (w1 := mkWorld _ _).
    assert (Hone : Forall (λ e, sent e = task_request taskUid) [ex])
      by (by repeat constructor).
    destruct (answer rp) as [res|err] eqn:Ea.
    2: { exists [ex]. split; [reflexivity|]. split; [assumption|].
         split; [assumption|]. exists ex. split; [reflexivity|].
         left. exists err. by split. }
    destruct (Task.make res) as [task|] eqn:Em.
    2: { exists [ex]. split; [reflexivity|]. split; [assumption|].
         split; [assumption|]. exists ex. split; [reflexivity|].
         right; left. exists res. by split. }
    destruct (make_status res task Em) as [status Es]. rewrite Es.
    destruct (Task.is_terminal status) eqn:Et.
    + exists [ex]. split; [reflexivity|]. split; [assumption|].
      split; [assumption|].
      exists ex, res. split; [reflexivity|]. split; [assumption|].
      split; [assumption|]. exists status. by split.
    + destruct (Z.leb_spec timeOutMs (clock w1 - t0)) as [Hlate|Hearly].
      * exists [ex]. split; [reflexivity|]. split; [assumption|].
        split; [assumption|]. exists ex. split; [reflexivity|].
        right; right. exists res, task, status, (clock w1 - t0)%Z.
        split; [assumption|]. split; [assumption|]. split; [assumption|].
        split; [assumption|]. by split.
      * set (w2 := mkWorld _ _).
        destruct (IH w2) as (seg & Hseg & Hpolls & Hout).
        exists (ex :: seg). split; [|split].
        -- rewrite Hseg. simpl. by rewrite <- app_assoc.
        -- by constructor.
        -- destruct (Task.poll fuel taskUid t0 timeOutMs intervalMs w2).1
             as [t|e|].
           ++ destruct Hout as (_ & e & r & Hlast & Hrest).
              split; [by constructor|]. exists e, r.
              split; [by apply last_later | assumption].
           ++ destruct Hout as (_ & e' & Hlast & Hwhy).
              split; [by constructor|]. exists e'.
              split; [by apply last_later | assumption].
           ++ intros (e' & r & t & Hlast & Ha & Hm & st & Hs & Hterm).
              destruct seg as [|ex' seg].
              ** injection Hlast as <-. simpl in Ha. rewrite Ea in Ha.
                 injection Ha as <-. rewrite Em in Hm. injection Hm as <-.
                 rewrite Es in Hs. injection Hs as <-. congruence.
              ** apply Hout. exists e', r, t. split; [exact Hlast|].
                 split; [assumption|]. split; [assumption|].
                 exists st. by split.
Qed.

(** With a positive interval the loop ends within [timeOutMs] polls
    and one more. *)
Lemma poll_ends taskUid t0 timeOutMs intervalMs fuel :
  (0 < intervalMs)%Z →
  ∀ w, Z.to_nat (timeOutMs - (clock w - t0)) < fuel →
       (Task.poll fuel taskUid t0 timeOutMs intervalMs w).1 ≠ OutOfFuel.
Proof.
  intros Hi. induction fuel as [|fuel IH]; intros w Hfuel; [lia|].
  rewrite poll_unfold.
  set (rp := network w (task_request taskUid)).
  destruct (answer rp) as [res|err]; [|discriminate].
  destruct (Task.make res) as [task|]; [|discriminate].
  destruct (prop task "status") as [status|]; [|discriminate].
  destruct (Task.is_terminal status); [discriminate|]. simpl.
  destruct (Z.leb_spec timeOutMs (clock w + Z.of_N (took rp) - t0));
    [discriminate|].
  apply IH. simpl. lia.
Qed.

Lemma waitForTask_outcome fuel taskUid waitOptions w :
  let run := Task.waitForTask fuel taskUid waitOptions w in
  let timeOutMs := Task.option_ms (field waitOptions "timeOutMs") 5000 in
  let intervalMs := Task.option_ms (field waitOptions "intervalMs") 50 in
  ∃ seg, exchanges run.2 = exchanges w ++ seg
         ∧ Forall (λ ex, sent ex = task_request taskUid) seg
         ∧ match run.1 with
           | Ret t => waited_for taskUid t seg
           | Throw e => wait_failed taskUid timeOutMs seg e
           | OutOfFuel =>
               ¬ ended_well seg
               ∧ ¬ ((0 < intervalMs)%Z ∧ Z.to_nat timeOutMs < fuel)
           end.
Proof.
  cbv zeta.
  assert (E : Task.waitForTask fuel taskUid waitOptions w
              = Task.poll fuel taskUid (clock w)
                  (Task.option_ms (field waitOptions "timeOutMs") 5000)
                  (Task.option_ms (field waitOptions "intervalMs") 50) w)
    by reflexivity.
  rewrite E. clear E.
  destruct (poll_outcome taskUid (clock w)
              (Task.option_ms (field waitOptions "timeOutMs") 5000)
              (Task.option_ms (field waitOptions "intervalMs") 50) fuel w)
    as (seg & Hseg & Hpolls & Hout).
  pose proof (poll_ends taskUid (clock w)
                (Task.option_ms (field waitOptions "timeOutMs") 5000)
                (Task.option_ms (field waitOptions "intervalMs") 50) fuel)
    as Hend.
  exists seg. split; [assumption|]. split; [assumption|].
  destruct (Task.poll fuel taskUid (clock w) _ _ w).1 as [t|e|] eqn:E;
    [assumption | assumption |].
  split; [assumption|]. intros [Hi Hfuel].
  apply (Hend Hi w); [|exact E]. by rewrite Z.sub_diag, Z.sub_0_r.
Qed.

(** At a server that answers every poll with a finished task, a wait
    returns after its first poll. *)
Lemma waitForTask_returns fuel taskUid waitOptions w :
  answers_with_a_finished_task →
  ∃ t, (Task.waitForTask (S fuel) taskUid waitOptions w).1 = Ret t.
Proof.
  intros Hall.
  assert (E : Task.waitForTask (S fuel) taskUid waitOptions w
              = Task.poll (S fuel) taskUid (clock w)
                  (Task.option_ms (field waitOptions "timeOutMs") 5000)
                  (Task.option_ms (field waitOptions "intervalMs") 50) w)
    by reflexivity.
  rewrite E, poll_unfold.
  destruct (Hall w taskUid) as (res & t & -> & -> & status & -> & ->).
  by exists t.
Qed.

Lemma wait_failed_not_ended taskUid timeOutMs seg e :
  wait_failed taskUid timeOutMs seg e → ¬ ended_well seg.
Proof.
  intros (_ & ex & Hlast & Hwhy) (ex' & res' & t' & Hlast' & Ha' & Hm' & Hterm).
  rewrite Hlast in Hlast'. injection Hlast' as <-.
  destruct Hwhy as [(err & Ha & _)
                   |[(res & Ha & Hm & _)
                    |(res & t & status & elapsed & Ha & Hm & Hs & Ht & _)]];
    rewrite Ha in Ha'; try discriminate Ha'; injection Ha' as <-;
    rewrite Hm in Hm'; try discriminate Hm'; injection Hm' as <-.
  destruct Hterm as (status' & Hs' & Ht'). congruence.
Qed.
End Waiting.

Section WaitingForMany.
Context `{Host}.

Lemma for_each_cons {S X Y} (f : X → Comp S Y) x xs (s : S) :
  for_each f (x :: xs) s =
    match f x s with
    | (Ret y, s1) =>
        match for_each f xs s1 with
        | (Ret ys, s2) => (Ret (y :: ys), s2)
        | (Throw e, s2) => (Throw e, s2)
        | (OutOfFuel, s2) => (OutOfFuel, s2)
        end
    | (Throw e, s1) => (Throw e, s1)
    | (OutOfFuel, s1) => (OutOfFuel, s1)
    end.
Proof.
  simpl. unfold bind. destruct (f x s) as [[y|e|] s1]; reflexivity.
Qed.

Lemma interrupted_here taskUid rest seg (P : Z → list Exchange → Prop) :
  P taskUid seg → interrupted (taskUid :: rest) [seg] P.
Proof.
  intros HP. exists [], seg, [], taskUid. split; [reflexivity|].
  split; [constructor|]. by split.
Qed.

Lemma interrupted_later taskUid rest t seg segs (P : Z → list Exchange → Prop) :
  waited_for taskUid t seg → interrupted rest segs P →
  interrupted (taskUid :: rest) (seg :: segs) P.
Proof.
  intros Hw (done & seg' & ts & taskUid' & -> & Hdone & Hnext & HP).
  exists (seg :: done), seg', (t :: ts), taskUid'. split; [reflexivity|].
  split; [by constructor|]. by split.
Qed.

Lemma interrupted_impl taskUids segs (P Q : Z → list Exchange → Prop) :
  (∀ taskUid seg, P taskUid seg → Q taskUid seg) →
  interrupted taskUids segs P → interrupted taskUids segs Q.
Proof.
  intros HPQ (done & seg & ts & taskUid & Hsegs & Hdone & Hnext & HP).
  exists done, seg, ts, taskUid. split; [assumption|].
  split; [assumption|]. split; [assumption | by apply HPQ].
Qed.

Lemma interrupted_not_ended taskUids segs :
  interrupted taskUids segs (λ _ seg, ¬ ended_well seg) →
  ¬ Forall ended_well segs.
Proof.
  intros (done & seg & ts & taskUid & -> & _ & _ & Hseg) Hall.
  apply Forall_app in Hall as [_ Hlast]. apply Hseg. by inversion Hlast.
Qed.

(** The waits follow one another in the record, in input order; the
    first that does not return ends the walk. *)
Lemma waits_outcome fuel waitOptions taskUids :
  ∀ w, let run := for_each (λ taskUid, Task.waitForTask fuel taskUid waitOptions)
                           taskUids w in
       let timeOutMs := Task.option_ms (field waitOptions "timeOutMs") 5000 in
       let intervalMs := Task.option_ms (field waitOptions "intervalMs") 50 in
       ∃ segs, exchanges run.2 = exchanges w ++ concat segs
               ∧ Forall2 (λ taskUid seg,
                            Forall (λ ex, sent ex = task_request taskUid) seg)
                         (take (length segs) taskUids) segs
               ∧ match run.1 with
                 | Ret ts => Forall3 waited_for taskUids ts segs
                 | Throw e =>
                     interrupted taskUids segs
                       (λ taskUid seg, wait_failed taskUid timeOutMs seg e)
                 | OutOfFuel =>
                     interrupted taskUids segs (λ _ seg, ¬ ended_well seg)
                     ∧ ¬ ((0 < intervalMs)%Z ∧ Z.to_nat timeOutMs < fuel)
                 end.
Proof.
  induction taskUids as [|taskUid rest IH]; intros w; cbv zeta.
  - exists []. simpl. rewrite app_nil_r. split; [reflexivity|].
    split; constructor.
  - rewrite for_each_cons.
    destruct (waitForTask_outcome fuel taskUid waitOptions w)
      as (seg & Hseg & Hpolls & Hout).
    destruct (Task.waitForTask fuel taskUid waitOptions w) as [[t|e|] w1];
      simpl in Hseg, Hout.
    + destruct (IH w1) as (segs & Hsegs & Hgroups & Houts).
      destruct (for_each _ rest w1) as [[ts|e|] w2];
        simpl in Hsegs, Houts; exists (seg :: segs); simpl;
        (split; [by rewrite Hsegs, Hseg, <- app_assoc|]);
        (split; [by constructor|]).
      * by constructor.
      * by apply (interrupted_later taskUid rest t).
      * destruct Houts as [Hint Hfuel].
        split; [by apply (interrupted_later taskUid rest t) | assumption].
    + exists [seg]. simpl. rewrite app_nil_r, take_0.
      split; [assumption|]. split; [by repeat constructor|].
      by apply interrupted_here.
    + exists [seg]. simpl. rewrite app_nil_r, take_0.
      split; [assumption|]. split; [by repeat constructor|].
      destruct Hout as [Hopen Hfuel].
      split; [by apply interrupted_here | assumption].
Qed.

Lemma waits_return fuel waitOptions taskUids :
  answers_with_a_finished_task →
  ∀ w, ∃ ts, (for_each (λ taskUid, Task.waitForTask (S fuel) taskUid waitOptions)
                       taskUids w).1 = Ret ts
             ∧ length ts = length taskUids.
Proof.
  intros Hall. induction taskUids as [|taskUid rest IH]; intros w.
  - by exists [].
  - rewrite for_each_cons.
    destruct (waitForTask_returns fuel taskUid waitOptions w Hall) as [t Ht].
    destruct (Task.waitForTask (S fuel) taskUid waitOptions w) as [out w1].
    simpl in Ht. subst out. destruct (IH w1) as (ts & Hts & Hlen).
    destruct (for_each _ rest w1) as [out w2]. simpl in Hts. subst out.
    exists (t :: ts). split; [reflexivity|]. simpl. by rewrite Hlen.
Qed.

(** C3, for the task client as the spec describes it.  [waitForTasks]
    hands the ids and the resolved options to the task client's
    [waitForTasks] and touches nothing but the record of exchanges; what
    it adds is a sequence of segments, one per task id in input order,
    each made of polls of that task only, so the polls of an id all come
    after the last poll of the id before it.  When the call returns,
    there is one segment per id and the result is the array whose
    element at each position is the terminal task made from the answer
    to the last poll of the id at that position, whatever the server
    answered and in whatever order the tasks ended.  The call raises
    only when a wait went wrong: the waits for the ids before it were
    completed, and its last poll is the last exchange of the record and
    failed, or was answered with something no task can be made from, or
    with a task not in a terminal status once [timeOutMs] had elapsed.
    So when every segment ends with a terminal task the call has
    returned, and at a server that answers every poll with a finished
    task the call returns one task per id.  With a positive interval and
    fuel above [timeOutMs] the loop does not run out of fuel. *)
Theorem waitForTasks_in_input_order (fuel : nat) (taskUids : list Z)
    (waitOptions : option object) (s : State) :
  tasks (this s) = Task.client fuel →
  let run := Index.waitForTasks taskUids waitOptions s in
  let passed := Index.resolved_waitOptions waitOptions in
  let timeOutMs := Task.option_ms (field passed "timeOutMs") 5000 in
  let intervalMs := Task.option_ms (field passed "intervalMs") 50 in
  run = liftIO (Task.waitForTasks fuel taskUids passed) s
  ∧ this run.2 = this s
  ∧ (answers_with_a_finished_task → 0 < fuel →
     ∃ ts, run.1 = Ret (Arr ts) ∧ length ts = length taskUids)
  ∧ ∃ segs, exchanges (world run.2) = exchanges (world s) ++ concat segs
            ∧ Forall2 (λ taskUid seg,
                         Forall (λ ex, sent ex = task_request taskUid) seg)
                      (take (length segs) taskUids) segs
            ∧ match run.1 with
              | Ret v => ∃ ts, v = Arr ts ∧ Forall3 waited_for taskUids ts segs
              | Throw e =>
                  interrupted taskUids segs
                    (λ taskUid seg, wait_failed taskUid timeOutMs seg e)
              | OutOfFuel =>
                  interrupted taskUids segs (λ _ seg, ¬ ended_well seg)
                  ∧ ¬ ((0 < intervalMs)%Z ∧ Z.to_nat timeOutMs < fuel)
              end
            ∧ (Forall ended_well segs → ∃ ts, run.1 = Ret (Arr ts)).
Proof.
  intros Htasks. cbv zeta.
  assert (E : Index.waitForTasks taskUids waitOptions s
              = liftIO (Task.waitForTasks fuel taskUids
                          (Index.resolved_waitOptions waitOptions)) s).
  { unfold Index.waitForTasks, bind at 1. simpl. by rewrite Htasks. }
  split; [exact E|]. rewrite E. clear E.
  unfold Task.waitForTasks, liftIO, bind.
  assert (Hreturns : answers_with_a_finished_task → 0 < fuel →
            ∃ ts, (for_each (λ taskUid,
                               Task.waitForTask fuel taskUid
                                 (Index.resolved_waitOptions waitOptions))
                            taskUids (world s)).1 = Ret ts
                  ∧ length ts = length taskUids).
  { intros Hall Hfuel. destruct fuel as [|fuel]; [lia|].
    by apply waits_return. }
  destruct (waits_outcome fuel (Index.resolved_waitOptions waitOptions)
              taskUids (world s)) as (segs & Hsegs & Hgroups & Houts).
  destruct (for_each _ taskUids (world s)) as [[ts|e|] w1];
    simpl in *; (split; [reflexivity|]);
    (split; [intros Hall Hfuel;
             destruct (Hreturns Hall Hfuel) as (ts' & Hts & Hlen);
             try discriminate Hts; injection Hts as <-; by exists ts|]);
    exists segs; (split; [assumption|]); (split; [assumption|]).
  - split; [|intros _]; exists ts; by split.
  - split; [assumption|]. intros Hall.
    destruct (interrupted_not_ended taskUids segs); [|assumption].
    eapply interrupted_impl; [|exact Houts].
    intros taskUid seg. apply wait_failed_not_ended.
  - split; [assumption|]. intros Hall. destruct Houts as [Hint _].
    by destruct (interrupted_not_ended taskUids segs).
Qed.
End WaitingForMany.

(** * Further properties *)

(** ** Batches: small inputs, coverage, failure *)

Section BatchEdges.
Context `{Host}.

Lemma sends_one_exchange rq finish (c : M value) s :
  sends rq finish c → one_exchange (rq (this s)) s (c s).
Proof.
  intros Hc. rewrite Hc. unfold one_exchange, exchange_run. simpl.
  split; [reflexivity|]. split.
  - intros err E. by rewrite E.
  - destruct (answer _) as [res|err]; [destruct (finish res)|]; discriminate.
Qed.

(** X1.  On an empty array of documents [addDocumentsInBatches] and
    [updateDocumentsInBatches] return the empty array at once, for every
    batch size (zero and negative ones too) and without sending any
    request: the state is as it was.  [addDocuments] and
    [updateDocuments] on the same empty array do send their request. *)
Theorem empty_batches_send_nothing (fuel : nat) (batchSize : option Z)
    (options : value) (s : State) :
  Index.addDocumentsInBatches fuel [] batchSize options s = (Ret (Arr []), s)
  ∧ Index.updateDocumentsInBatches fuel [] batchSize options s = (Ret (Arr []), s)
  ∧ one_exchange (chunk_request POST (this s) options []) s
      (Index.addDocuments [] options s)
  ∧ one_exchange (chunk_request PUT (this s) options []) s
      (Index.updateDocuments [] options s).
Proof.
  split; [by destruct fuel|]. split; [by destruct fuel|]. split.
  - apply (sends_one_exchange _ _ _ s (sends_addDocuments [] options)).
  - apply (sends_one_exchange _ _ _ s (sends_updateDocuments [] options)).
Qed.

Lemma slice_all {A} (l : list A) (b : Z) :
  (Z.of_nat (length l) <= b)%Z → l ≠ [] → slice l 0 (0 + b) = l.
Proof.
  intros Hb Hne. unfold slice.
  assert (0 < Z.of_nat (length l))%Z by (destruct l; [congruence | simpl; lia]).
  change (0 <? 0)%Z with false. cbv iota.
  destruct (Z.ltb_spec (0 + b) 0); [lia|].
  rewrite (Z.min_r (0 + b)), (Z.min_l 0) by lia. simpl.
  apply take_ge. lia.
Qed.

Lemma batches_once send fuel documents b s :
  documents ≠ [] → (Z.of_nat (length documents) <= b)%Z →
  Index.batches send (S fuel) documents b 0 [] s
  = (task <- send documents ;; ret [task]) s.
Proof.
  intros Hne Hb.
  assert (0 < Z.of_nat (length documents))%Z
    by (destruct documents; [congruence | simpl; lia]).
  simpl. destruct (Z.ltb_spec 0 (Z.of_nat (length documents))); [|lia].
  rewrite slice_all by assumption. apply bind_ext. intros task s1.
  destruct fuel; simpl;
    (destruct (Z.ltb_spec (0 + b) (Z.of_nat (length documents))); [lia|]);
    reflexivity.
Qed.

(** X3.  When the batch size (1000 when none is given) is at least the
    number of documents, which are not none, a batch method is one call
    of the plain method on all the documents, its task handle returned
    in a one-element array; one iteration of the loop is enough. *)
Theorem one_batch_is_one_call (fuel : nat) (documents : list value)
    (batchSize : option Z) (options : value) (s : State) :
  documents ≠ [] →
  (Z.of_nat (length documents) <= default 1000 batchSize)%Z →
  Index.addDocumentsInBatches (S fuel) documents batchSize options s
    = (task <- Index.addDocuments documents options ;; ret (Arr [task])) s
  ∧ Index.updateDocumentsInBatches (S fuel) documents batchSize options s
    = (task <- Index.updateDocuments documents options ;; ret (Arr [task])) s.
Proof.
  intros Hne Hb.
  split; unfold Index.addDocumentsInBatches, Index.updateDocumentsInBatches;
    (etrans; [apply bind_ext_l, batches_once; assumption|]);
    rewrite bind_assoc; reflexivity.
Qed.
End BatchEdges.

Section BatchCoverage.
Context `{Host}.

Lemma concat_chunks_from {A} (documents : list A) (b : Z) (j k : nat) :
  concat (chunk documents b <$> seq k j)
  = take (j * Z.to_nat b) (drop (k * Z.to_nat b) documents).
Proof.
  revert k. induction j as [|j IH]; intros k; [reflexivity|].
  csimpl. rewrite IH. unfold chunk.
  replace (S k * Z.to_nat b) with (k * Z.to_nat b + Z.to_nat b) by lia.
  rewrite <- drop_drop. apply take_take_drop.
Qed.

Lemma concat_chunks {A} (documents : list A) (b : Z) :
  (0 < b)%Z → concat (chunks documents b) = documents.
Proof.
  intros Hb. unfold chunks. rewrite concat_chunks_from. simpl.
  apply take_ge.
  pose proof (chunk_count_lt (Z.of_nat (length documents)) b
                (chunk_count (Z.of_nat (length documents)) b) Hb) as [_ Hc].
  pose proof (chunk_count_nonneg (Z.of_nat (length documents)) b Hb
                ltac:(lia)).
  destruct (Z_lt_le_dec
              (chunk_count (Z.of_nat (length documents)) b * b)
              (Z.of_nat (length documents))) as [Hlt|Hge];
    [apply Hc in Hlt; lia | nia].
Qed.

(** With a positive batch size a batch method is a walk over the chunks. *)
Lemma batches_walk send fuel documents b s :
  (0 < b)%Z → length documents ≤ fuel →
  (updates <- Index.batches send fuel documents b 0 [] ;; ret (Arr updates)) s
  = (ys <- for_each send (chunks documents b) ;; ret (Arr ys)) s.
Proof.
  intros Hb Hfuel.
  pose proof (chunk_count_nonneg (Z.of_nat (length documents)) b Hb
                ltac:(lia)) as Hc0.
  pose proof (chunk_count_le (Z.of_nat (length documents)) b Hb
                ltac:(lia)) as Hcn.
  etrans.
  { apply bind_ext_l.
    apply (batches_for_each send documents b
             (Z.to_nat (chunk_count (Z.of_nat (length documents)) b)) Hb 0);
      lia. }
  rewrite bind_assoc. reflexivity.
Qed.

Lemma documents_of_requests m i options (cs : list (list value)) new :
  sent <$> new = chunk_request m i options <$> cs →
  documents_of <$> new = cs.
Proof.
  revert cs. induction new as [|ex new IH]; intros [|c cs] E;
    try discriminate E; [reflexivity|].
  csimpl in *. injection E as Eex Enew. f_equal; [|by apply IH].
  unfold documents_of. by rewrite Eex.
Qed.

Lemma covering_run m options documents b s run :
  (0 < b)%Z → batch_run m options (chunks documents b) s run →
  covering_batch documents s run.
Proof.
  intros Hb (_ & new & Hnew & Hr). unfold covering_batch.
  destruct run.1 as [v|e|]; [|exact I..].
  destruct Hr as (Hsent & _). exists new. split; [assumption|].
  pose proof (documents_of_requests _ _ _ _ _ Hsent) as Hdocs.
  rewrite Hdocs. split; [by apply concat_chunks|].
  apply (Forall_fmap documents_of (λ c : list value, c ≠ [])).
  rewrite Hdocs.
  apply Forall_lookup. intros k c Hc Hempty.
  pose proof (lookup_lt_Some _ _ _ Hc) as Hk.
  apply chunks_lookup in Hc. subst c.
  destruct (chunk_length documents b k Hb Hk) as [Hpos _].
  rewrite Hempty in Hpos. simpl in Hpos. lia.
Qed.

(** X2.  With a positive batch size the chunks put end to end are the
    documents, and a batch method that returns has sent requests whose
    bodies, put end to end in the order sent, are exactly the documents
    given: none lost, none sent twice, none out of order, and no request
    without documents. *)
Theorem batches_cover_documents (fuel : nat) (documents : list value)
    (batchSize : option Z) (options : value) (s : State) :
  (0 < default 1000 batchSize)%Z →
  length documents ≤ fuel →
  concat (chunks documents (default 1000%Z batchSize)) = documents
  ∧ covering_batch documents s
      (Index.addDocumentsInBatches fuel documents batchSize options s)
  ∧ covering_batch documents s
      (Index.updateDocumentsInBatches fuel documents batchSize options s).
Proof.
  intros Hb Hfuel. split; [by apply concat_chunks|].
  split; (eapply covering_run; [exact Hb|]).
  - apply batches_run; try assumption. intros c. apply sends_addDocuments.
  - apply batches_run; try assumption. intros c. apply sends_updateDocuments.
Qed.

(** Where a walk over [xs] that raised had got to. *)
Lemma for_each_sends_failure {X} (rq : X → Index → Request) finish
    (f : X → M value) :
  (∀ x, sends (rq x) finish (f x)) →
  ∀ xs s e s',
    for_each f xs s = (Throw e, s') →
    ∃ done ex,
      exchanges (world s') = exchanges (world s) ++ done ++ [ex]
      ∧ length done < length xs
      ∧ sent <$> (done ++ [ex])
        = take (S (length done)) ((λ x, rq x (this s)) <$> xs)
      ∧ Forall (λ ex, ∃ res t, answer (reply ex) = Success res
                                ∧ finish res = Some t) done
      ∧ ((∃ err, answer (reply ex) = Failure err ∧ e = TransportError err)
         ∨ (∃ res, answer (reply ex) = Success res
                   ∧ finish res = None ∧ e = TypeError)).
Proof.
  intros Hf. induction xs as [|x xs IH]; intros s e s' E; [discriminate E|].
  rewrite for_each_cons, Hf in E. unfold exchange_run in E.
  set (rp := network (world s) (rq x (this s))) in *.
  set (ex0 := mkExchange (rq x (this s)) rp).
  destruct (answer rp) as [res|err] eqn:Ea;
    [destruct (finish res) as [t|] eqn:Et|].
  - set (s1 := mkState _ _) in E.
    destruct (for_each f xs s1) as [[ts|e1|] s2] eqn:E1; try discriminate E.
    injection E as -> ->.
    destruct (IH s1 e s' E1) as (done & ex & Hex & Hlen & Hsent & Hdone & Hfail).
    exists (ex0 :: done), ex. split; [|split; [|split; [|split]]].
    + rewrite Hex. simpl. by rewrite <- app_assoc.
    + simpl. lia.
    + change (sent <$> (ex0 :: done) ++ [ex])
        with (sent ex0 :: (sent <$> done ++ [ex])).
      rewrite Hsent. reflexivity.
    + constructor; [|assumption]. exists res, t. by split.
    + assumption.
  - injection E as <- <-. exists [], ex0.
    split; [reflexivity|]. split; [simpl; lia|]. split; [reflexivity|].
    split; [constructor|]. right. exists res. by repeat split.
  - injection E as <- <-. exists [], ex0.
    split; [reflexivity|]. split; [simpl; lia|]. split; [reflexivity|].
    split; [constructor|]. left. exists err. by split.
Qed.

Lemma stopped_run m send fuel documents b options s :
  (∀ c, sends (λ i, chunk_request m i options c) EnqueuedTask.make (send c)) →
  (0 < b)%Z → length documents ≤ fuel →
  stopped_batch m options (chunks documents b) s
    ((updates <- Index.batches send fuel documents b 0 [] ;; ret (Arr updates)) s).
Proof.
  intros Hsend Hb Hfuel. rewrite batches_walk by assumption.
  intros e E. unfold bind in *.
  destruct (for_each send (chunks documents b) s) as [[ts|e1|] s1] eqn:E1;
    simpl in E; try discriminate E. injection E as ->.
  destruct (for_each_sends_failure (λ c i, chunk_request m i options c)
              EnqueuedTask.make send Hsend _ _ _ _ E1)
    as (done & ex & Hex & Hlen & Hsent & Hdone & Hfail).
  exists done, ex. simpl. split; [assumption|]. split; [assumption|].
  split; [assumption|]. split; [|exact Hfail].
  eapply Forall_impl; [exact Hdone|].
  intros ex' (res & t & Hres & Ht). exists t, res. by split.
Qed.

(** X4.  With a positive batch size, a batch method that raises has
    stopped at the first chunk that went wrong: the requests of the
    chunks before it were all answered with a task, so those documents
    are enqueued; the request of that chunk is the last one in the
    record and what it raises is the failure of that request (or the
    [TypeError] of an answer no task handle can be made from); the
    chunks after it were never sent. *)
Theorem batches_stop_at_first_failure (fuel : nat) (documents : list value)
    (batchSize : option Z) (options : value) (s : State) :
  (0 < default 1000 batchSize)%Z →
  length documents ≤ fuel →
  stopped_batch POST options (chunks documents (default 1000%Z batchSize)) s
    (Index.addDocumentsInBatches fuel documents batchSize options s)
  ∧ stopped_batch PUT options (chunks documents (default 1000%Z batchSize)) s
      (Index.updateDocumentsInBatches fuel documents batchSize options s).
Proof.
  intros Hb Hfuel. split.
  - apply stopped_run; try assumption. intros c. apply sends_addDocuments.
  - apply stopped_run; try assumption. intros c. apply sends_updateDocuments.
Qed.
End BatchCoverage.

(** ** What the search and document requests carry *)

Section RequestContents.
Context `{Host}.

Lemma removeUndefined_carried (o : object) (k : string) :
  removeUndefinedFromObject o !! k = o !! k ≫= carried.
Proof.
  rewrite removeUndefined_lookup. destruct (o !! k) as [[]|]; reflexivity.
Qed.

Lemma with_q_lookup (o : object) (query : value) (k : string) :
  (o ∪ {["q" := query]}) !! k
  = match o !! k with
    | Some v => Some v
    | None => if decide (k = "q") then Some query else None
    end.
Proof.
  destruct (o !! k) as [v|] eqn:E.
  - by apply lookup_union_Some_l.
  - rewrite lookup_union_r by assumption. case_decide as Hk.
    + subst k. apply lookup_singleton_eq.
    + by apply lookup_singleton_ne.
Qed.

(** X5.  The POST [search] sends one request whose body holds the
    options as given, less those that are [undefined], and the query
    text under [q]; a [q] among the options takes the place of the
    query argument; a query that is [undefined] is left out, one that is
    [null] is sent as [null]. *)
Theorem search_body_is_the_options (query : value) (options : option object)
    (cfg : value) (s : State) :
  ∃ b, Index.search query options cfg s
         = exchange_run (mkRequest POST (Index.index_url (this s) "/search")
                                   VUndefined (VObj b) cfg) Some s
       ∧ b !! "q" = match spread options !! "q" with
                    | Some v => carried v
                    | None => carried query
                    end
       ∧ ∀ k, k ≠ "q" → b !! k = spread options !! k ≫= carried.
Proof.
  eexists. split; [apply sends_search|].
  split.
  - rewrite removeUndefined_carried, with_q_lookup.
    by destruct (spread options !! "q").
  - intros k Hk. rewrite removeUndefined_carried, with_q_lookup.
    destruct (spread options !! k); [reflexivity|]. by case_decide.
Qed.

(** X6.  When [searchGet] sends its request, that request and the one
    of the POST [search] on the same arguments go to the same address
    with the same request configuration, and carry the same value for
    every parameter other than [filter] and the five array parameters:
    the query text, the pagination and every other option travel alike
    in the query of the one and in the body of the other. *)
Theorem searchGet_agrees_with_search (query : value) (options : option object)
    (cfg : value) (s : State) :
  Array_isArray (opt_field options "filter") = false →
  Forall (λ k, joinable (opt_field options k) = true) search_array_params →
  ∃ p b u,
    Index.searchGet query options cfg s
      = exchange_run (mkRequest GET u (VObj p) VUndefined cfg) Some s
    ∧ Index.search query options cfg s
      = exchange_run (mkRequest POST u VUndefined (VObj b) cfg) Some s
    ∧ ∀ k, k ∉ rewritten_search_params → p !! k = b !! k.
Proof.
  intros Hf Hj.
  pose proof (searchGet_run query options cfg s) as R. simpl in R.
  rewrite Hf in R. unfold search_array_params in Hj.
  apply Forall_cons in Hj as [J1 Hj]. apply Forall_cons in Hj as [J2 Hj].
  apply Forall_cons in Hj as [J3 Hj]. apply Forall_cons in Hj as [J4 Hj].
  apply Forall_cons in Hj as [J5 _].
  destruct (joined_joinable _ J1) as (x1 & E1 & _).
  destruct (joined_joinable _ J2) as (x2 & E2 & _).
  destruct (joined_joinable _ J3) as (x3 & E3 & _).
  destruct (joined_joinable _ J4) as (x4 & E4 & _).
  destruct (joined_joinable _ J5) as (x5 & E5 & _).
  rewrite E1, E2, E3, E4, E5 in R.
  eexists _, _, _. split; [exact R|]. split; [apply sends_search|].
  intros k Hk. unfold rewritten_search_params, search_array_params in Hk.
  rewrite !not_elem_of_cons in Hk.
  destruct Hk as (K0 & K1 & K2 & K3 & K4 & K5 & _).
  rewrite !removeUndefined_carried.
  by do 6 (rewrite lookup_insert_ne by done).
Qed.

Lemma documents_params_lookup (x : value) (parameters : option object) :
  (∀ k, k ≠ "fields" →
        removeUndefinedFromObject (<["fields" := x]> (spread parameters)) !! k
        = spread parameters !! k ≫= carried)
  ∧ (x = VUndefined →
     removeUndefinedFromObject (<["fields" := x]> (spread parameters)) !! "fields"
     = None).
Proof.
  split.
  - intros k Hk. by rewrite removeUndefined_carried, lookup_insert_ne.
  - intros ->. by rewrite removeUndefined_carried, lookup_insert_eq.
Qed.

Lemma joined_fields_not_array {S} (parameters : option object) (s : S) :
  Array_isArray (opt_field parameters "fields") = false →
  Index.joined_fields parameters s = (Ret VUndefined, s).
Proof. intros E. unfold Index.joined_fields. by rewrite E. Qed.

(** X7.  [getDocuments] and [getDocument] always send their request,
    whatever the parameters: one GET on the documents of the index
    (resp. on the one document) whose query holds every parameter other
    than [fields] as given, less those that are [undefined].  A [fields]
    that is not an array, a single field name given as a string for
    one, is not sent at all. *)
Theorem documents_query_contents (documentId : value)
    (parameters : option object) (s : State) :
  (∃ p, Index.getDocuments parameters s
          = exchange_run (mkRequest GET (Index.index_url (this s) "/documents")
                                    (VObj p) VUndefined VUndefined) Some s
        ∧ (∀ k, k ≠ "fields" → p !! k = spread parameters !! k ≫= carried)
        ∧ (Array_isArray (opt_field parameters "fields") = false →
           p !! "fields" = None))
  ∧ (∃ p, Index.getDocument documentId parameters s
            = exchange_run
                (mkRequest GET
                   (Index.index_url (this s)
                      ("/documents/" +:+ to_string documentId))
                   (VObj p) VUndefined VUndefined) Some s
          ∧ (∀ k, k ≠ "fields" → p !! k = spread parameters !! k ≫= carried)
          ∧ (Array_isArray (opt_field parameters "fields") = false →
             p !! "fields" = None)).
Proof.
  destruct (joined_fields_run parameters s) as (x & Ex & Hx).
  destruct (documents_params_lookup x parameters) as [Hother Hfields].
  assert (Hdrop : Array_isArray (opt_field parameters "fields") = false →
                  x = VUndefined).
  { intros E. rewrite (joined_fields_not_array parameters s E) in Ex.
    congruence. }
  split; eexists; (split; [|split]);
    try exact Hother; try (intros E; apply Hfields; by apply Hdrop).
  - unfold Index.getDocuments, bind. simpl. rewrite Ex. apply request_run.
  - unfold Index.getDocument, bind. simpl. rewrite Ex. apply request_run.
Qed.

(** X8.  The static [create] sends one POST on [indexes], whatever the
    handle: its body holds the options as given, [undefined] ones
    included, and the uid argument under [uid], which takes the place
    of a [uid] among the options; the answer comes back as a task
    handle. *)
Theorem create_sends_uid (u : string) (options : option object) (s : State) :
  ∃ b, Index.create u options s
         = exchange_run (mkRequest POST "indexes" VUndefined (VObj b) VUndefined)
                        EnqueuedTask.make s
       ∧ b !! "uid" = Some (VStr u)
       ∧ ∀ k, k ≠ "uid" → b !! k = spread options !! k.
Proof.
  eexists. split; [apply sends_create|]. split.
  - apply lookup_insert_eq.
  - intros k Hk. by rewrite lookup_insert_ne.
Qed.
End RequestContents.

(** ** One request per call *)

Section OnePerCall.
Context `{Host}.

Lemma exchange_run_one rq finish s :
  one_exchange rq s (exchange_run rq finish s).
Proof.
  unfold one_exchange, exchange_run. simpl.
  split; [reflexivity|]. split.
  - intros err E. by rewrite E.
  - destruct (answer _) as [res|err]; [destruct (finish res)|]; discriminate.
Qed.

Lemma one_exchange_as_value rq s (c : M value) :
  one_exchange rq s (c s) → one_exchange rq s (as_value c s).
Proof.
  unfold one_exchange, as_value, bind.
  destruct (c s) as [[v|e|] s1]; simpl; intros (Hw & Hfail & Hfuel).
  - split; [assumption|]. split; [|discriminate].
    intros err E. specialize (Hfail err E). discriminate Hfail.
  - split; [assumption|]. split; [|discriminate].
    intros err E. specialize (Hfail err E). congruence.
  - by destruct Hfuel.
Qed.

Lemma sends_call rq finish (c : M value) s :
  sends rq finish c → addressed_to (this s) (rq (this s)) →
  ∃ r, one_exchange r s (as_value c s) ∧ addressed_to (this s) r.
Proof.
  intros Hc Ha. exists (rq (this s)). split; [|assumption].
  apply one_exchange_as_value. rewrite Hc. apply exchange_run_one.
Qed.

Lemma run_call r finish (c : M value) s :
  c s = exchange_run r finish s → addressed_to (this s) r →
  ∃ r, one_exchange r s (as_value c s) ∧ addressed_to (this s) r.
Proof.
  intros Hc Ha. exists r. split; [|assumption].
  apply one_exchange_as_value. rewrite Hc. apply exchange_run_one.
Qed.

Lemma getRawInfo_one s :
  one_exchange (info_request (this s)) s (Index.getRawInfo s).
Proof.
  pose proof (getRawInfo_run s) as R. simpl in R. rewrite R.
  unfold one_exchange, info_request.
  destruct (answer _) as [res|err].
  - destruct (prop res "primaryKey"), (prop res "updatedAt"),
      (prop res "createdAt"); simpl;
      (split; [reflexivity|]); (split; [|discriminate]);
      intros err E; discriminate E.
  - simpl. split; [reflexivity|]. split; [|discriminate].
    intros err' E. congruence.
Qed.

(** What [fetchInfo] and [fetchPrimaryKey] add to [getRawInfo]. *)
Lemma fetchInfo_run s :
  Index.fetchInfo s
  = match Index.getRawInfo s with
    | (Ret _, s1) => (Ret (this s1), s1)
    | (Throw e, s1) => (Throw e, s1)
    | (OutOfFuel, s1) => (OutOfFuel, s1)
    end.
Proof.
  unfold Index.fetchInfo, bind. by destruct (Index.getRawInfo s) as [[]].
Qed.

Lemma fetchPrimaryKey_run s :
  Index.fetchPrimaryKey s
  = match Index.getRawInfo s with
    | (Ret _, s1) => (Ret (primaryKey (this s1)), s1)
    | (Throw e, s1) => (Throw e, s1)
    | (OutOfFuel, s1) => (OutOfFuel, s1)
    end.
Proof.
  pose proof (getRawInfo_run s) as R. simpl in R.
  unfold Index.fetchPrimaryKey, bind. rewrite R.
  destruct (answer _) as [res|err]; [|reflexivity].
  destruct (prop res "primaryKey") as [pk|] eqn:Epk; [|reflexivity].
  destruct (prop res "updatedAt") as [u|]; [|reflexivity].
  destruct (prop res "createdAt") as [cr|]; [|reflexivity].
  unfold getProp. rewrite Epk. reflexivity.
Qed.

Lemma one_exchange_outcome {A B} rq s (r1 : outcome A) (r2 : outcome B) s1 :
  one_exchange rq s (r1, s1) →
  (∀ e, r1 = Throw e → r2 = Throw e) → r2 ≠ OutOfFuel →
  one_exchange rq s (r2, s1).
Proof.
  intros (Hw & Hfail & _) Hthrow Hfuel. split; [assumption|].
  split; [|assumption]. intros err E. apply Hthrow. by apply Hfail.
Qed.
End OnePerCall.

Ltac request_lemma :=
  lazymatch goal with
  | |- sends _ _ (Index.search _ _ _) => apply sends_search
  | |- sends _ _ (Index.create _ _) => apply sends_create
  | |- sends _ _ (Index.update _) => apply sends_update
  | |- sends _ _ Index.delete => apply sends_delete
  | |- sends _ _ Index.getStats => apply (sends_fetched "/stats")
  | |- sends _ _ (Index.addDocuments _ _) => apply sends_addDocuments
  | |- sends _ _ (Index.updateDocuments _ _) => apply sends_updateDocuments
  | |- sends _ _ (Index.addDocumentsFromString _ _ _) =>
      apply sends_addDocumentsFromString
  | |- sends _ _ (Index.updateDocumentsFromString _ _ _) =>
      apply sends_updateDocumentsFromString
  | |- sends _ _ (Index.deleteDocument _) => apply sends_deleteDocument
  | |- sends _ _ (Index.deleteDocuments _) => apply sends_deleteDocuments
  | |- sends _ _ Index.deleteAllDocuments => apply sends_deleteAllDocuments
  | |- sends _ _ (Index.fetched _) => apply sends_fetched
  | |- sends _ _ (Index.wrapped HttpRequests.put _ _) =>
      by apply (sends_wrapped PUT)
  | |- sends _ _ (Index.wrapped HttpRequests.patch _ _) =>
      by apply (sends_wrapped PATCH)
  | |- sends _ _ (Index.wrapped HttpRequests.delete _ _) =>
      by apply (sends_wrapped DELETE)
  | |- sends _ _ (Index.stamped _ HttpRequests.patch _ _) =>
      by apply (sends_stamped _ PATCH)
  | |- sends _ _ (Index.stamped _ HttpRequests.delete _ _) =>
      by apply (sends_stamped _ DELETE)
  end.

Ltac under_the_index :=
  first [ by left | right; eexists; reflexivity ].

Create HintDb getters discriminated.

#[export] Hint Unfold
  Index.getSettings Index.getPagination Index.getSynonyms Index.getStopWords
  Index.getRankingRules Index.getDistinctAttribute
  Index.getFilterableAttributes Index.getSortableAttributes
  Index.getSearchableAttributes Index.getDisplayedAttributes
  Index.getTypoTolerance Index.getFaceting : getters.

Section ClassWide.
Context `{Host}.

(** X10.  A call of any method other than the two batch methods and the
    four that hand the work to the task client makes exactly one
    exchange with the server and never a second one, so nothing is
    retried: the request is addressed to [indexes] or to
    [indexes/{uid}] and below, and when it fails the method raises the
    transport's error as it is.  The one exception is [searchGet], which
    may raise before it sends and then leaves the state as it was. *)
Theorem one_request_per_call (fuel : nat) (c : Call) (s : State) :
  delegates_or_batches c = false →
  (is_searchGet c = true
   ∧ (invoke fuel c s).2 = s ∧ ∃ e, (invoke fuel c s).1 = Throw e)
  ∨ ∃ rq, one_exchange rq s (invoke fuel c s) ∧ addressed_to (this s) rq.
Proof.
  intros Hc.
  destruct c; try discriminate Hc; clear Hc; simpl;
    try (right; eapply sends_call;
         [autounfold with settings getters; request_lemma | under_the_index]).
  - lazymatch goal with
    | |- context [Index.searchGet ?q ?o ?cf] =>
        pose proof (searchGet_run q o cf s) as R
    end. simpl in R.
    unfold as_value, bind. rewrite R.
    destruct (Array_isArray _); [left; simpl; eauto|].
    destruct (joined _); [|left; simpl; eauto].
    destruct (joined _); [|left; simpl; eauto].
    destruct (joined _); [|left; simpl; eauto].
    destruct (joined _); [|left; simpl; eauto].
    destruct (joined _); [|left; simpl; eauto].
    right. eexists. split.
    + apply (one_exchange_as_value _ s (λ s, exchange_run _ Some s)).
      apply exchange_run_one.
    + under_the_index.
  - right. exists (info_request (this s)). split; [|under_the_index].
    apply one_exchange_as_value, getRawInfo_one.
  - right. exists (info_request (this s)). split; [|under_the_index].
    pose proof (getRawInfo_one s) as G. unfold bind. rewrite fetchInfo_run.
    destruct (Index.getRawInfo s) as [[res|e|] s1]; simpl.
    + eapply one_exchange_outcome;
        [exact G | intros e E; discriminate E | discriminate].
    + eapply one_exchange_outcome;
        [exact G | intros e0 [= ->]; reflexivity | discriminate].
    + by destruct G as (_ & _ & []).
  - right. exists (info_request (this s)). split; [|under_the_index].
    pose proof (getRawInfo_one s) as G. unfold as_value, bind.
    rewrite fetchPrimaryKey_run.
    destruct (Index.getRawInfo s) as [[res|e|] s1]; simpl.
    + eapply one_exchange_outcome;
        [exact G | intros e E; discriminate E | discriminate].
    + eapply one_exchange_outcome;
        [exact G | intros e0 [= ->]; reflexivity | discriminate].
    + by destruct G as (_ & _ & []).
  - lazymatch goal with
    | |- context [Index.getDocuments ?ps] =>
        destruct (getDocuments_run ps s) as (p & Hp & _)
    end.
    right. eapply run_call; [exact Hp | under_the_index].
  - lazymatch goal with
    | |- context [Index.getDocument ?d ?ps] =>
        destruct (getDocument_run d ps s) as (p & Hp & _)
    end.
    right. eapply run_call; [exact Hp | under_the_index].
Qed.
End ClassWide.

(** ** Getters, settings resources, conversions in place *)

Section Resources.
Context `{Host}.

Lemma sends_answer rq (c : M value) s :
  sends rq Some c →
  match answer (network (world s) (rq (this s))) with
  | Success res => (as_value c s).1 = Ret (Value res)
  | Failure err => (as_value c s).1 = Throw (TransportError err)
  end.
Proof.
  intros Hc. unfold as_value, bind. rewrite Hc. unfold exchange_run.
  by destruct (answer _).
Qed.

(** X9.  Each of the thirteen getters without parameters ([getStats],
    [getSettings] and the getter of each settings sub-resource) makes
    one exchange, a GET without query or body on a path below
    [indexes/{uid}], and returns the server's answer exactly as
    received, whatever it is: nothing in it is converted. *)
Theorem getters_return_the_answer (fuel : nat) (c : Call) (s : State) :
  is_plain_read c = true →
  ∃ rest,
    let rq := mkRequest GET (Index.index_url (this s) rest)
                        VUndefined VUndefined VUndefined in
    one_exchange rq s (invoke fuel c s)
    ∧ match answer (network (world s) rq) with
      | Success res => (invoke fuel c s).1 = Ret (Value res)
      | Failure err => (invoke fuel c s).1 = Throw (TransportError err)
      end.
Proof.
  intros Hc.
  destruct c; try discriminate Hc; clear Hc; simpl;
    eexists; (split;
      [ apply one_exchange_as_value;
        apply (sends_one_exchange _ Some _ s (sends_fetched _))
      | apply (sends_answer _ _ s (sends_fetched _)) ]).
Qed.

(** X13.  For the settings as a whole and for each of the eleven
    settings sub-resources, the getter, the update and the reset address
    one and the same path: the getter with a GET, the reset with a
    DELETE without body, the update with the caller's value as body and
    the verb PATCH for the whole settings, pagination, typo tolerance
    and faceting, PUT for the others.  Each of the three sends that
    request and no other; the update and the reset turn the answer into
    a task handle or convert its enqueue time in place. *)
Theorem settings_resources_share_a_path (r : SettingsResource) (v : value) :
  sends (λ i, mkRequest GET (Index.index_url i (settings_path r))
                        VUndefined VUndefined VUndefined)
        Some (read_setting r)
  ∧ (∃ finish,
       sends (λ i, mkRequest (update_verb r) (Index.index_url i (settings_path r))
                             VUndefined v VUndefined)
             finish (write_setting r v)
       ∧ (finish = EnqueuedTask.make ∨ ∃ k, finish = Index.restamp k))
  ∧ (∃ finish,
       sends (λ i, mkRequest DELETE (Index.index_url i (settings_path r))
                             VUndefined VUndefined VUndefined)
             finish (clear_setting r)
       ∧ (finish = EnqueuedTask.make ∨ ∃ k, finish = Index.restamp k)).
Proof.
  split; [|split].
  - destruct r; apply sends_fetched.
  - destruct r; simpl; eexists;
      (split;
        [ first [ by apply (sends_wrapped PUT) | by apply (sends_wrapped PATCH)
                | by apply (sends_stamped _ PATCH) ]
        | eauto ]).
  - destruct r; simpl; eexists;
      (split;
        [ first [ by apply (sends_wrapped DELETE)
                | by apply (sends_stamped _ DELETE) ]
        | eauto ]).
Qed.

Lemma restamp_object k res :
  is_object res = true →
  ∃ v, Index.restamp k res = Some v
       ∧ prop v k = new_Date <$> prop res "enqueuedAt"
       ∧ ∀ k', k' ≠ k → prop v k' = prop res k'.
Proof.
  intros Ho. destruct res; try discriminate Ho; simpl;
    eexists; (split; [reflexivity|]); simpl; unfold field;
    (split; [by rewrite lookup_insert_eq|]);
    intros k' Hk; by rewrite lookup_insert_ne.
Qed.

Lemma restamp_not_object k res :
  is_object res = false → Index.restamp k res = None.
Proof. intros Ho. by destruct res. Qed.

Lemma sends_restamp rq k (c : M value) s :
  sends rq (Index.restamp k) c →
  one_exchange (rq (this s)) s (as_value c s)
  ∧ ∀ res, answer (network (world s) (rq (this s))) = Success res →
      if is_object res
      then ∃ v, (as_value c s).1 = Ret (Value v)
                ∧ prop v k = new_Date <$> prop res "enqueuedAt"
                ∧ ∀ k', k' ≠ k → prop v k' = prop res k'
      else (as_value c s).1 = Throw TypeError.
Proof.
  intros Hc. split.
  - apply one_exchange_as_value. rewrite Hc. apply exchange_run_one.
  - intros res Ea. unfold as_value, bind. rewrite Hc. unfold exchange_run.
    rewrite Ea. destruct (is_object res) eqn:Ho.
    + destruct (restamp_object k res Ho) as (v & Ev & Hk & Hother).
      rewrite Ev. simpl. eauto.
    + by rewrite (restamp_not_object k res Ho).
Qed.

(** X11.  The fifteen methods that convert the enqueue time in place
    ([update], [deleteDocument], [deleteAllDocuments], [updateSettings],
    [updateTypoTolerance] and the resets other than those of pagination
    and faceting) make one exchange and return the server's answer
    itself: every property of it comes back as received, except the one
    assigned ([enqueuedAt]; [enqueued] for [updateSettings]), which is
    the date made from the answer's [enqueuedAt].  When the answer is
    not an object ([null], [undefined], a number, a string, a boolean)
    they raise a [TypeError], the request having been sent. *)
Theorem conversions_in_place_keep_the_answer (fuel : nat) (c : Call)
    (s : State) :
  converts_in_place c = true →
  ∃ rq,
    one_exchange rq s (invoke fuel c s)
    ∧ ∀ res, answer (network (world s) rq) = Success res →
        if is_object res
        then ∃ v, (invoke fuel c s).1 = Ret (Value v)
                  ∧ prop v (assigned_property c)
                    = new_Date <$> prop res "enqueuedAt"
                  ∧ ∀ k, k ≠ assigned_property c → prop v k = prop res k
        else (invoke fuel c s).1 = Throw TypeError.
Proof.
  intros Hc.
  destruct c; try discriminate Hc; clear Hc; simpl;
    eexists; eapply sends_restamp;
    autounfold with settings; request_lemma.
Qed.

(** X12.  [fetchInfo] and [fetchPrimaryKey] leave the state exactly as
    [getRawInfo] does, one exchange made.  [getRawInfo] returns the
    server's answer as received, its timestamps unconverted (the dates
    made from them go to the cached fields only); [fetchInfo] returns
    the handle as the call leaves it; [fetchPrimaryKey] returns the
    [primaryKey] of the answer, which is also the cached one after the
    call.  Each of them raises exactly when [getRawInfo] does, with the
    same error. *)
Theorem info_fetch_results (s : State) :
  let raw := Index.getRawInfo s in
  (Index.fetchInfo s).2 = raw.2
  ∧ (Index.fetchPrimaryKey s).2 = raw.2
  ∧ one_exchange (info_request (this s)) s raw
  ∧ match raw.1 with
    | Ret res =>
        answer (network (world s) (info_request (this s))) = Success res
        ∧ (Index.fetchInfo s).1 = Ret (this raw.2)
        ∧ (Index.fetchPrimaryKey s).1 = Ret (primaryKey (this raw.2))
        ∧ prop res "primaryKey" = Some (primaryKey (this raw.2))
    | Throw e =>
        (Index.fetchInfo s).1 = Throw e ∧ (Index.fetchPrimaryKey s).1 = Throw e
    | OutOfFuel => False
    end.
Proof.
  cbv zeta. rewrite fetchInfo_run, fetchPrimaryKey_run.
  pose proof (getRawInfo_one s) as G.
  pose proof (getRawInfo_run s) as R. simpl in R.
  fold (info_request (this s)) in R.
  destruct (Index.getRawInfo s) as [[res|e|] s1] eqn:E; simpl.
  - split; [reflexivity|]. split; [reflexivity|]. split; [exact G|].
    destruct (answer _) as [res'|err]; [|discriminate R].
    destruct (prop res' "primaryKey") as [pk|] eqn:Epk; [|discriminate R].
    destruct (prop res' "updatedAt") as [u|]; [|discriminate R].
    destruct (prop res' "createdAt") as [cr|]; [|discriminate R].
    injection R as Hres Hs1. subst res s1. by repeat split.
  - split; [reflexivity|]. split; [reflexivity|]. split; [exact G|].
    by split.
  - by destruct G as (_ & _ & []).
Qed.
End Resources.

(** ** Batches: a negative batch size *)

Section NegativeBatch.
Context `{Host}.

Lemma slice_below {A} (l : list A) (pos b : Z) :
  (pos < 0)%Z → (b < 0)%Z → slice l pos (pos + b) = [].
Proof.
  intros Hpos Hb. unfold slice.
  destruct (Z.ltb_spec pos 0); [|lia].
  destruct (Z.ltb_spec (pos + b) 0); [|lia].
  replace (Z.to_nat _) with 0 by lia. reflexivity.
Qed.

Lemma slice_but_last {A} (l : list A) (b : Z) :
  (b < 0)%Z →
  slice l 0 (0 + b) = take (Z.to_nat (Z.of_nat (length l) + b)) l.
Proof.
  intros Hb. unfold slice. change (0 <? 0)%Z with false. cbv iota.
  destruct (Z.ltb_spec (0 + b) 0); [|lia].
  rewrite (Z.min_l 0) by lia. simpl. f_equal. lia.
Qed.

(** Below zero the loop goes on sending requests without documents. *)
Lemma batches_below m send documents b options :
  (∀ c, sends (λ i, chunk_request m i options c) EnqueuedTask.make (send c)) →
  (b < 0)%Z → documents ≠ [] →
  ∀ fuel pos updates s,
    (pos < 0)%Z →
    ∃ new,
      exchanges (world (Index.batches send fuel documents b pos updates s).2)
      = exchanges (world s) ++ new
      ∧ Forall (λ ex, documents_of ex = []) new.
Proof.
  intros Hsend Hb Hne.
  assert (0 < Z.of_nat (length documents))%Z as Hn.
  { destruct documents; [congruence | simpl; lia]. }
  induction fuel as [|fuel IH]; intros pos updates s Hpos; simpl;
    (destruct (Z.ltb_spec pos (Z.of_nat (length documents))); [|lia]).
  - exists []. by rewrite app_nil_r.
  - pose proof (Hsend (slice documents pos (pos + b)) s) as Ex.
    unfold exchange_run in Ex. simpl in Ex.
    rewrite slice_below in * by assumption.
    set (rq := chunk_request m (this s) options []) in *.
    set (rp := network (world s) rq) in *.
    set (s1 := mkState _ _) in *.
    unfold bind. rewrite Ex. clear Ex.
    destruct (answer rp) as [res|err];
      [destruct (EnqueuedTask.make res) as [t|]|].
    + lazymatch goal with
      | |- context [Index.batches send fuel documents b ?p ?u s1] =>
          destruct (IH p u s1 ltac:(lia)) as (new & Hnew & Hempty)
      end.
      exists (mkExchange rq rp :: new). rewrite Hnew. simpl.
      rewrite <- app_assoc. split; [reflexivity|]. by constructor.
    + exists [mkExchange rq rp]. split; [reflexivity|]. by repeat constructor.
    + exists [mkExchange rq rp]. split; [reflexivity|]. by repeat constructor.
Qed.

Lemma batches_shrinking m send fuel documents b options s :
  (∀ c, sends (λ i, chunk_request m i options c) EnqueuedTask.make (send c)) →
  (b < 0)%Z → documents ≠ [] →
  shrinking_batch documents b s
    ((updates <- Index.batches send fuel documents b 0 [] ;; ret (Arr updates)) s).
Proof.
  intros Hsend Hb Hne.
  assert (0 < Z.of_nat (length documents))%Z as Hn.
  { destruct documents; [congruence | simpl; lia]. }
  assert (E : ∀ {A} (c : M (list value)) (k : list value → A) s0,
            exchanges (world ((x <- c ;; ret (k x)) s0).2)
            = exchanges (world (c s0).2)).
  { intros A c k s0. unfold bind. by destruct (c s0) as [[]]. }
  unfold shrinking_batch. rewrite E. clear E.
  destruct fuel as [|fuel]; simpl;
    (destruct (Z.ltb_spec 0 (Z.of_nat (length documents))); [|lia]).
  - exists []. by rewrite app_nil_r.
  - pose proof (Hsend (slice documents 0 (0 + b)) s) as Ex.
    unfold exchange_run in Ex. simpl in Ex.
    set (rq := chunk_request m (this s) options _) in *.
    set (rp := network (world s) rq) in *.
    set (s1 := mkState _ _) in *.
    assert (Hfirst : documents_of (mkExchange rq rp)
                     = take (Z.to_nat (Z.of_nat (length documents) + b)) documents).
    { unfold documents_of, rq, chunk_request. simpl.
      by rewrite slice_but_last. }
    unfold bind. rewrite Ex. clear Ex.
    destruct (answer rp) as [res|err];
      [destruct (EnqueuedTask.make res) as [t|]|].
    + lazymatch goal with
      | |- context [Index.batches send fuel documents b ?p ?u s1] =>
          destruct (batches_below m send documents b options Hsend Hb Hne
                      fuel p u s1 ltac:(lia)) as (new & Hnew & Hempty)
      end.
      exists (mkExchange rq rp :: new). rewrite Hnew. simpl.
      rewrite <- app_assoc. by repeat split.
    + exists [mkExchange rq rp]. by repeat split.
    + exists [mkExchange rq rp]. by repeat split.
Qed.

(** X14.  With a negative batch size [b] on a non-empty array, what a
    batch method sends before it is stopped (it never returns) is one
    request with the documents but the last [-b] of them (none when
    there are no more than that), as [slice(0, b)] counts from the end,
    and after it requests without documents only. *)
Theorem negative_batchSize_sends_a_prefix (fuel : nat) (documents : list value)
    (b : Z) (options : value) (s : State) :
  (b < 0)%Z → documents ≠ [] →
  shrinking_batch documents b s
    (Index.addDocumentsInBatches fuel documents (Some b) options s)
  ∧ shrinking_batch documents b s
      (Index.updateDocumentsInBatches fuel documents (Some b) options s).
Proof.
  intros Hb Hne. split.
  - apply (batches_shrinking POST _ _ _ _ options); try assumption.
    intros c. apply sends_addDocuments.
  - apply (batches_shrinking PUT _ _ _ _ options); try assumption.
    intros c. apply sends_updateDocuments.
Qed.
End NegativeBatch.

(** ** The batch methods, run by run *)

Section BatchRuns.
Context `{Host}.

Lemma failed_not_handled ex e : failed_with ex e → ¬ handled ex.
Proof.
  intros [(err & Ha & _) | (res & Ha & Hm & _)] (t & res' & Ha' & Hm');
    congruence.
Qed.

Lemma handled_but_last done ex e :
  failed_with ex e → ¬ Forall handled (done ++ [ex]).
Proof.
  intros Hfail Hall. apply Forall_app in Hall as [_ Hex].
  apply (failed_not_handled ex e Hfail). by inversion Hex.
Qed.

(** At a server that answers every request with a task, a walk of a
    method that sends one request and makes a task handle returns. *)
Lemma for_each_returns {X} (rq : X → Index → Request) (send : X → M value) :
  answers_with_a_task →
  (∀ x, sends (rq x) EnqueuedTask.make (send x)) →
  ∀ xs s, ∃ ts, (for_each send xs s).1 = Ret ts.
Proof.
  intros Hall Hsend. induction xs as [|x xs IH]; intros s.
  - by exists [].
  - rewrite for_each_cons, (Hsend x s). unfold exchange_run.
    destruct (Hall (world s) (rq x (this s))) as (res & t & -> & ->).
    set (s1 := mkState _ _). destruct (IH s1) as [ts Hts].
    destruct (for_each send xs s1) as [out s2]. simpl in Hts. subst out.
    by exists (t :: ts).
Qed.

(** A batch method over a positive batch size, run by run. *)
Lemma batches_chunked m send fuel documents b options s :
  (∀ c, sends (λ i, chunk_request m i options c) EnqueuedTask.make (send c)) →
  (0 < b)%Z → length documents ≤ fuel →
  chunked_run m options (chunks documents b) s
    ((updates <- Index.batches send fuel documents b 0 [] ;; ret (Arr updates)) s).
Proof.
  intros Hsend Hb Hfuel.
  pose proof (batches_run m send fuel documents b options s Hsend Hb Hfuel)
    as (Hthis & new & Hnew & Hrun).
  pose proof (stopped_run m send fuel documents b options s Hsend Hb Hfuel)
    as Hstop.
  unfold stopped_batch in Hstop. unfold chunked_run.
  split; [assumption|]. split.
  { intros Hall. rewrite batches_walk by assumption. unfold bind.
    destruct (for_each_returns (λ c i, chunk_request m i options c) send
                Hall Hsend (chunks documents b) s) as [ts Hts].
    destruct (for_each send (chunks documents b) s) as [out s1].
    simpl in Hts. subst out. by exists ts. }
  clear Hthis.
  destruct ((updates <- Index.batches send fuel documents b 0 [] ;;
             ret (Arr updates)) s) as [[v|e|] s1]; simpl in *.
  - exists new. split; [assumption|].
    split; [exact Hrun|]. intros _. destruct Hrun as (_ & ts & -> & _).
    by exists ts.
  - destruct (Hstop e eq_refl) as (done & ex & Hex & Hlen & Hsent & Hdone & Hfail).
    exists (done ++ [ex]). split; [assumption|]. split.
    + exists done, ex. split; [reflexivity|]. split; [assumption|].
      split; [assumption|]. by split.
    + intros Hall. by destruct (handled_but_last done ex e Hfail).
  - destruct Hrun.
Qed.

(** C2.  With a positive batch size [b] (1000 when none is given) and
    [n] documents, the chunks are [n / b] rounded up in number, chunk
    [k] holds the documents at positions [k * b] up to [k * b + b], so
    each chunk is full except that the last holds what is left.
    [addDocumentsInBatches] is [addDocuments] on each chunk in turn, and
    [updateDocumentsInBatches] is [updateDocuments] on each chunk in
    turn.  A call that returns has sent one POST (one PUT) per chunk, in
    chunk order and nothing else, and returns the array of the task
    handles made from the answers in that order.  A call raises only
    when a request went wrong: the request of some chunk failed or was
    answered with something no task handle can be made from, it is the
    last request sent, and the requests of the chunks before it were
    answered with a task; so when every request is answered with a task
    the call returns.  [fuel] at least [n] is enough for the loop to
    finish. *)
Theorem batches_send_chunks_in_order (fuel : nat) (documents : list value)
    (batchSize : option Z) (options : value) (s : State) :
  (0 < default 1000 batchSize)%Z →
  length documents ≤ fuel →
  let b := default 1000%Z batchSize in
  let cs := chunks documents b in
  let add := Index.addDocumentsInBatches fuel documents batchSize options s in
  let upd := Index.updateDocumentsInBatches fuel documents batchSize options s in
  length cs = Z.to_nat (chunk_count (Z.of_nat (length documents)) b)
  ∧ (∀ k, k < length cs →
          cs !! k = Some (take (Z.to_nat b) (drop (k * Z.to_nat b) documents))
          ∧ 0 < length (chunk documents b k)
          ∧ length (chunk documents b k)
            = if decide (S k < length cs) then Z.to_nat b
              else length documents - k * Z.to_nat b)
  ∧ add = (ts <- for_each (λ c, Index.addDocuments c options) cs ;;
           ret (Arr ts)) s
  ∧ upd = (ts <- for_each (λ c, Index.updateDocuments c options) cs ;;
           ret (Arr ts)) s
  ∧ chunked_run POST options cs s add
  ∧ chunked_run PUT options cs s upd.
Proof.
  intros Hb Hfuel b cs add upd. split; [apply chunks_length|].
  split; [|split; [|split; [|split]]].
  - intros k Hk. split; [|by apply chunk_length].
    destruct (lookup_lt_is_Some_2 cs k Hk) as [c Hc].
    rewrite Hc, (chunks_lookup _ _ _ _ Hc). reflexivity.
  - by apply batches_walk.
  - by apply batches_walk.
  - apply batches_chunked; try assumption.
    intros c. apply sends_addDocuments.
  - apply batches_chunked; try assumption.
    intros c. apply sends_updateDocuments.
Qed.

(** With a batch size that is not positive the loop variable never
    passes the length of a non-empty array: the loop goes on until a
    request goes wrong. *)
Lemma batches_stuck m send documents b options :
  (∀ c, sends (λ i, chunk_request m i options c) EnqueuedTask.make (send c)) →
  (b <= 0)%Z → documents ≠ [] →
  ∀ fuel pos updates s,
    (pos <= 0)%Z →
    let run := Index.batches send fuel documents b pos updates s in
    ∃ new, exchanges (world run.2) = exchanges (world s) ++ new
           ∧ match run.1 with
             | Ret _ => False
             | Throw e =>
                 ∃ done ex, new = done ++ [ex]
                            ∧ Forall handled done ∧ failed_with ex e
             | OutOfFuel => length new = fuel ∧ Forall handled new
             end
           ∧ (b = 0%Z → pos = 0%Z →
              Forall (λ ex, body (sent ex) = Arr []) new).
Proof.
  intros Hsend Hb Hne.
  assert (0 < Z.of_nat (length documents))%Z as Hn.
  { destruct documents; [congruence | simpl; lia]. }
  induction fuel as [|fuel IH]; intros pos updates s Hpos; simpl;
    (destruct (Z.ltb_spec pos (Z.of_nat (length documents))); [|lia]).
  - exists []. rewrite app_nil_r.
    split; [reflexivity|]. split; [by split|]. constructor.
  - pose proof (Hsend (slice documents pos (pos + b)) s) as Ex.
    unfold exchange_run in Ex. simpl in Ex.
    set (rq := chunk_request m (this s) options _) in *.
    set (rp := network (world s) rq) in *.
    set (s1 := mkState _ _) in *.
    unfold bind. rewrite Ex. clear Ex.
    assert (Hempty : b = 0%Z → pos = 0%Z → body (sent (mkExchange rq rp)) = Arr []).
    { intros -> ->. unfold rq, chunk_request. simpl. by rewrite slice_nothing. }
    destruct (answer rp) as [res|err] eqn:Ea;
      [destruct (EnqueuedTask.make res) as [t|] eqn:Em|].
    + destruct (IH (pos + b)%Z (updates ++ [t]) s1 ltac:(lia))
        as (new & Hnew & Hout & Hempties).
      assert (Hex : handled (mkExchange rq rp)).
      { exists t, res. by split. }
      exists (mkExchange rq rp :: new).
      rewrite Hnew. simpl. rewrite <- app_assoc.
      split; [reflexivity|]. split.
      * destruct (Index.batches send fuel documents b (pos + b) (updates ++ [t]) s1).1
          as [us|e|]; [assumption| |].
        -- destruct Hout as (done & ex & -> & Hdone & Hfail).
           exists (mkExchange rq rp :: done), ex.
           split; [reflexivity|]. split; [by constructor | assumption].
        -- destruct Hout as [<- Hall]. split; [reflexivity | by constructor].
      * intros Eb Ep. constructor; [by apply Hempty|].
        apply Hempties; [assumption | lia].
    + simpl. exists [mkExchange rq rp]. split; [reflexivity|]. split.
      * exists [], (mkExchange rq rp). split; [reflexivity|].
        split; [constructor|]. right. exists res. by split.
      * intros Eb Ep. constructor; [by apply Hempty | constructor].
    + simpl. exists [mkExchange rq rp]. split; [reflexivity|]. split.
      * exists [], (mkExchange rq rp). split; [reflexivity|].
        split; [constructor|]. left. exists err. by split.
      * intros Eb Ep. constructor; [by apply Hempty | constructor].
Qed.

(** At a server that answers every request with a task the loop is
    still running at any bound. *)
Lemma batches_loop_on m send documents b options :
  answers_with_a_task →
  (∀ c, sends (λ i, chunk_request m i options c) EnqueuedTask.make (send c)) →
  (b <= 0)%Z → documents ≠ [] →
  ∀ fuel pos updates s,
    (pos <= 0)%Z →
    (Index.batches send fuel documents b pos updates s).1 = OutOfFuel.
Proof.
  intros Hall Hsend Hb Hne.
  assert (0 < Z.of_nat (length documents))%Z as Hn.
  { destruct documents; [congruence | simpl; lia]. }
  induction fuel as [|fuel IH]; intros pos updates s Hpos; simpl;
    (destruct (Z.ltb_spec pos (Z.of_nat (length documents))); [|lia]);
    [reflexivity|].
  pose proof (Hsend (slice documents pos (pos + b)) s) as Ex.
  unfold exchange_run in Ex. unfold bind. rewrite Ex. clear Ex.
  destruct (Hall (world s)
              (chunk_request m (this s) options
                 (slice documents pos (pos + b)))) as (res & t & -> & ->).
  apply IH. lia.
Qed.

Lemma batches_stuck_run m send fuel documents b options s :
  (∀ c, sends (λ i, chunk_request m i options c) EnqueuedTask.make (send c)) →
  (b <= 0)%Z → documents ≠ [] →
  stuck_run fuel b s
    ((updates <- Index.batches send fuel documents b 0 [] ;; ret (Arr updates)) s).
Proof.
  intros Hsend Hb Hne.
  destruct (batches_stuck m send documents b options Hsend Hb Hne
              fuel 0%Z [] s ltac:(lia)) as (new & Hnew & Hout & Hempty).
  pose proof (λ Hall, batches_loop_on m send documents b options Hall Hsend
                        Hb Hne fuel 0%Z [] s ltac:(lia)) as Hloop.
  unfold stuck_run, bind.
  destruct (Index.batches send fuel documents b 0 [] s) as [[us|e|] s1];
    simpl in *; [destruct Hout| |];
    (split; [intros Hall; pose proof (Hloop Hall) as L; simpl in L;
             first [discriminate L | reflexivity]|]);
    exists new; (split; [assumption|]);
    (split; [assumption|]); (split; [|intros Eb; by apply Hempty]).
  - intros Hall. destruct Hout as (done & ex & -> & _ & Hfail).
    by destruct (handled_but_last done ex e Hfail).
  - intros _. by destruct Hout.
Qed.

(** C9.  On a non-empty array of documents, with a batch size that is
    zero or negative, [addDocumentsInBatches] and
    [updateDocumentsInBatches] never return, whatever bound is put on
    the number of iterations.  As long as every request is answered with
    a task the call is still looping at the bound, having sent one
    request per iteration; only a request that goes wrong ends the call,
    which then raises the failure of that request, its last.  With a
    batch size of zero every request carries the empty slice at position
    0.  With a positive batch size the loop ends within as many
    iterations as there are documents. *)
Theorem batches_need_positive_batchSize (fuel : nat) (documents : list value)
    (batchSize : option Z) (options : value) (s : State) :
  documents ≠ [] →
  let b := default 1000%Z batchSize in
  let add := Index.addDocumentsInBatches fuel documents batchSize options s in
  let upd := Index.updateDocumentsInBatches fuel documents batchSize options s in
  ((b <= 0)%Z → stuck_run fuel b s add ∧ stuck_run fuel b s upd)
  ∧ ((0 < b)%Z → length documents ≤ fuel →
     add.1 ≠ OutOfFuel ∧ upd.1 ≠ OutOfFuel).
Proof.
  intros Hne b add upd. split.
  - intros Hb. split.
    + apply (batches_stuck_run POST _ _ _ _ options); try assumption.
      intros c. apply sends_addDocuments.
    + apply (batches_stuck_run PUT _ _ _ _ options); try assumption.
      intros c. apply sends_updateDocuments.
  - intros Hb Hfuel.
    assert (Ha : batch_run POST options (chunks documents b) s add).
    { apply batches_run; try assumption. intros c. apply sends_addDocuments. }
    assert (Hu : batch_run PUT options (chunks documents b) s upd).
    { apply batches_run; try assumption. intros c. apply sends_updateDocuments. }
    destruct Ha as (_ & na & _ & Ha). destruct Hu as (_ & nu & _ & Hu).
    split; intros E.
    + rewrite E in Ha. exact Ha.
    + rewrite E in Hu. exact Hu.
Qed.
End BatchRuns.

(** ** The statements at the sample host *)

(** The array filter of the spec's example: [searchGet] raises and the
    record of exchanges stays empty; [search] sends it in the body. *)
Example array_filter_rejected :
  let options := Some (<["filter" := sample_array_filter]> ∅) in
  let rejected := Index.searchGet (H := sample_host) (VStr "dune") options
                    VUndefined sample_state in
  rejected.1 = Throw (MeiliSearchError filter_format_message)
  ∧ exchanges (world rejected.2) = []
  ∧ body ∘ sent
      <$> exchanges (world (Index.search (H := sample_host) (VStr "dune") options
                              VUndefined sample_state).2)
    = [VObj (<["q" := VStr "dune"]> (<["filter" := sample_array_filter]> ∅))].
Proof. vm_compute. repeat split. Qed.

(** [fetchInfo] fills the cached primary key, [getStats] does not. *)
Example info_fetch_refreshes :
  primaryKey (this (Index.fetchInfo (H := sample_host) sample_state).2) = VStr "id"
  ∧ primaryKey (this (Index.getStats (H := sample_host) sample_state).2) = VUndefined.
Proof. vm_compute. split; reflexivity. Qed.

(** The sample server answers every request with a task. *)
Lemma sample_server_enqueues : answers_with_a_task (H := sample_host).
Proof.
  intros w rq. unfold network, sample_host, sample_network.
  destruct (method rq); try destruct (String.prefix "tasks/" (url rq));
    try destruct (100 <=? clock w)%Z; eexists _, _; (split; [reflexivity|]);
    reflexivity.
Qed.

Lemma batches_send_chunks_in_order_witness :
  let run := Index.addDocumentsInBatches (H := sample_host) 5 sample_documents
               (Some 2%Z) VUndefined sample_state in
  length <$> chunks sample_documents 2 = [2; 2; 1]
  ∧ chunked_run (H := sample_host) POST VUndefined (chunks sample_documents 2)
      sample_state run
  ∧ ∃ ts, run.1 = Ret (Arr ts).
Proof.
  destruct (batches_send_chunks_in_order (H := sample_host) 5 sample_documents
              (Some 2%Z) VUndefined sample_state)
    as (_ & _ & _ & _ & Hadd & _); [reflexivity | simpl; lia |].
  split; [reflexivity|]. split; [exact Hadd|].
  destruct Hadd as (_ & Hreturns & _). exact (Hreturns sample_server_enqueues).
Defined.

(** The run itself: three requests of two, two and one documents, three
    task handles. *)
Example five_documents_by_two :
  let run := Index.addDocumentsInBatches (H := sample_host) 5 sample_documents
               (Some 2%Z) VUndefined sample_state in
  documents_sent <$> exchanges (world run.2) = [2; 2; 1]
  ∧ method ∘ sent <$> exchanges (world run.2) = [POST; POST; POST]
  ∧ ∃ t1 t2 t3, run.1 = Ret (Arr [t1; t2; t3]).
Proof. vm_compute. repeat split. eauto. Qed.

Lemma waitForTasks_in_input_order_witness :
  let run := Index.waitForTasks [7; 8; 9]%Z None sample_state in
  ∃ segs ts,
    run.1 = Ret (Arr ts)
    ∧ exchanges (world run.2) = exchanges (world sample_state) ++ concat segs
    ∧ Forall3 (waited_for (H := sample_host)) [7; 8; 9]%Z ts segs.
Proof.
  pose proof (waitForTasks_in_input_order (H := sample_host) (Z.to_nat 6000)
                [7; 8; 9]%Z None sample_state eq_refl) as Hrun.
  cbv zeta in Hrun. destruct Hrun as (_ & _ & _ & segs & Hsegs & _ & Hout & _).
  cbv zeta.
  remember (Index.waitForTasks [7; 8; 9]%Z None sample_state).1 as out eqn:E.
  destruct out as [v|e|].
  - destruct Hout as (ts & -> & Hwaited). exists segs, ts.
    split; [reflexivity|]. split; [exact Hsegs | exact Hwaited].
  - vm_compute in E. discriminate E.
  - vm_compute in E. discriminate E.
Defined.

(** The run itself: the first task is polled three times before it is
    done, then the other two once each; three tasks come back. *)
Example three_tasks_awaited :
  let run := Index.waitForTasks [7; 8; 9]%Z None sample_state in
  url ∘ sent <$> exchanges (world run.2)
    = ["tasks/7"; "tasks/7"; "tasks/7"; "tasks/8"; "tasks/9"]
  ∧ ∃ t7 t8 t9, run.1 = Ret (Arr [t7; t8; t9]).
Proof. vm_compute. split; [reflexivity | eauto]. Qed.

Lemma get_requests_join_arrays_witness :
  ∃ p, Index.searchGet (H := sample_host) (VStr "dune") (Some sample_options)
         VUndefined sample_state
       = exchange_run (H := sample_host)
           (mkRequest GET "indexes/movies/search" (VObj p) VUndefined VUndefined)
           Some sample_state
       ∧ Forall (λ k, p !! k = comma_joined (H := sample_host)
                                 (opt_field (Some sample_options) k))
                search_array_params.
Proof.
  destruct (get_requests_join_arrays (H := sample_host) (VStr "dune") VUndefined
              (VNum 1) (Some sample_options) None sample_state) as [Hget _].
  apply Hget; [reflexivity | repeat constructor].
Defined.

(** The query of that request. *)
Example search_query_sent :
  let run := Index.searchGet (H := sample_host) (VStr "dune") (Some sample_options)
               VUndefined sample_state in
  params ∘ sent <$> exchanges (world run.2)
  = [VObj (<["q" := VStr "dune"]>
          (<["filter" := VStr "genre = scifi"]>
          (<["sort" := VStr "title:asc,year:desc"]> ∅)))].
Proof. vm_compute. reflexivity. Qed.

Lemma updateSettings_enqueuedAt_stays_raw_witness :
  ∃ t, (Index.updateSettings (H := sample_host) (VObj ∅) sample_state).1
       = Ret (VObj t)
       ∧ t !! "enqueuedAt" = Some (VStr "2022-12-01T10:00:00Z")
       ∧ t !! "enqueued"
         = Some (new_Date (H := sample_host) (VStr "2022-12-01T10:00:00Z")).
Proof.
  eapply (updateSettings_enqueuedAt_stays_raw (H := sample_host) (VObj ∅)
            sample_state); [reflexivity | reflexivity].
Defined.

(** The sibling [updateTypoTolerance] on the same answer returns the date. *)
Example updateTypoTolerance_enqueuedAt_parsed :
  ∃ t, (Index.updateTypoTolerance (H := sample_host) (VObj ∅) sample_state).1
       = Ret (VObj t)
       ∧ t !! "enqueuedAt"
         = Some (new_Date (H := sample_host) (VStr "2022-12-01T10:00:00Z"))
       ∧ t !! "enqueued" = None.
Proof. eexists. split; [reflexivity|]. split; reflexivity. Qed.

Lemma batches_need_positive_batchSize_witness :
  let run := Index.addDocumentsInBatches (H := sample_host) 3 sample_documents
               (Some 0%Z) VUndefined sample_state in
  stuck_run (H := sample_host) 3 0 sample_state run
  ∧ run.1 = OutOfFuel.
Proof.
  destruct (batches_need_positive_batchSize (H := sample_host) 3 sample_documents
              (Some 0%Z) VUndefined sample_state) as [Hstuck _];
    [discriminate|].
  destruct Hstuck as [Hadd _]; [simpl; lia|].
  split; [exact Hadd|].
  destruct Hadd as [Hloops _]. exact (Hloops sample_server_enqueues).
Defined.

(** The run itself: out of fuel after three requests, each with no
    document. *)
Example zero_batchSize_loops :
  let run := Index.addDocumentsInBatches (H := sample_host) 3 sample_documents
               (Some 0%Z) VUndefined sample_state in
  run.1 = OutOfFuel
  ∧ body ∘ sent <$> exchanges (world run.2) = [Arr []; Arr []; Arr []].
Proof. vm_compute. split; reflexivity. Qed.

(** ** The further statements at the sample hosts *)

Lemma batches_cover_documents_witness :
  covering_batch sample_documents sample_state
    (Index.addDocumentsInBatches (H := sample_host) 5 sample_documents
       (Some 2%Z) VUndefined sample_state).
Proof.
  destruct (batches_cover_documents (H := sample_host) 5 sample_documents
              (Some 2%Z) VUndefined sample_state) as (_ & Hadd & _);
    [reflexivity | simpl; lia |].
  exact Hadd.
Defined.

Lemma one_batch_is_one_call_witness :
  Index.addDocumentsInBatches (H := sample_host) 1 sample_documents None VUndefined
    sample_state
  = (task <- Index.addDocuments (H := sample_host) sample_documents VUndefined ;;
     ret (Arr [task])) sample_state.
Proof.
  destruct (one_batch_is_one_call (H := sample_host) 0 sample_documents None
              VUndefined sample_state) as [Hadd _];
    [discriminate | simpl; lia |].
  exact Hadd.
Defined.

Lemma batches_stop_at_first_failure_witness :
  stopped_batch (H := flaky_host) POST VUndefined (chunks sample_documents 2)
    sample_state
    (Index.addDocumentsInBatches (H := flaky_host) 5 sample_documents
       (Some 2%Z) VUndefined sample_state).
Proof.
  destruct (batches_stop_at_first_failure (H := flaky_host) 5 sample_documents
              (Some 2%Z) VUndefined sample_state) as [Hadd _];
    [reflexivity | simpl; lia |].
  exact Hadd.
Defined.

(** The run itself: the second request is refused, the third chunk is
    never sent. *)
Example second_chunk_refused :
  let run := Index.addDocumentsInBatches (H := flaky_host) 5 sample_documents
               (Some 2%Z) VUndefined sample_state in
  run.1 = Throw (TransportError refusal)
  ∧ documents_sent <$> exchanges (world run.2) = [2; 2].
Proof. vm_compute. split; reflexivity. Qed.

Lemma searchGet_agrees_with_search_witness :
  ∃ p b u,
    Index.searchGet (H := sample_host) (VStr "dune") (Some sample_options)
      VUndefined sample_state
    = exchange_run (H := sample_host)
        (mkRequest GET u (VObj p) VUndefined VUndefined) Some sample_state
    ∧ Index.search (H := sample_host) (VStr "dune") (Some sample_options)
        VUndefined sample_state
      = exchange_run (H := sample_host)
          (mkRequest POST u VUndefined (VObj b) VUndefined) Some sample_state
    ∧ ∀ k, k ∉ rewritten_search_params → p !! k = b !! k.
Proof.
  apply (searchGet_agrees_with_search (H := sample_host) (VStr "dune")
           (Some sample_options) VUndefined sample_state);
    [reflexivity | repeat constructor].
Defined.

(** A single field name given as a string does not reach the server; the
    pagination does. *)
Example string_fields_dropped :
  let parameters :=
    Some (<["fields" := VStr "title"]> (<["limit" := VNum 3]> ∅)) in
  let run := Index.getDocuments (H := sample_host) parameters sample_state in
  params ∘ sent <$> exchanges (world run.2) = [VObj (<["limit" := VNum 3]> ∅)].
Proof. vm_compute. reflexivity. Qed.

Lemma getters_return_the_answer_witness :
  ∃ rest,
    let rq := mkRequest GET (Index.index_url sample_handle rest)
                        VUndefined VUndefined VUndefined in
    one_exchange (H := sample_host) rq sample_state
      (invoke (H := sample_host) 0 GetStats sample_state)
    ∧ match answer (network (Host := sample_host) (world sample_state) rq) with
      | Success res =>
          (invoke (H := sample_host) 0 GetStats sample_state).1 = Ret (Value res)
      | Failure err =>
          (invoke (H := sample_host) 0 GetStats sample_state).1
          = Throw (TransportError err)
      end.
Proof.
  apply (getters_return_the_answer (H := sample_host) 0 GetStats sample_state).
  reflexivity.
Defined.

Lemma one_request_per_call_witness :
  ∃ rq, one_exchange (H := sample_host) rq sample_state
          (invoke (H := sample_host) 0 Delete sample_state)
        ∧ addressed_to sample_handle rq.
Proof.
  destruct (one_request_per_call (H := sample_host) 0 Delete sample_state)
    as [(Hget & _) | Hone]; [reflexivity | discriminate Hget | exact Hone].
Defined.

Lemma conversions_in_place_keep_the_answer_witness :
  ∃ rq,
    one_exchange (H := sample_host) rq sample_state
      (invoke (H := sample_host) 0 ResetStopWords sample_state)
    ∧ ∀ res, answer (network (Host := sample_host) (world sample_state) rq)
             = Success res →
        if is_object res
        then ∃ v, (invoke (H := sample_host) 0 ResetStopWords sample_state).1
                  = Ret (Value v)
                  ∧ prop v "enqueuedAt"
                    = new_Date (H := sample_host) <$> prop res "enqueuedAt"
                  ∧ ∀ k, k ≠ "enqueuedAt" → prop v k = prop res k
        else (invoke (H := sample_host) 0 ResetStopWords sample_state).1
             = Throw TypeError.
Proof.
  apply (conversions_in_place_keep_the_answer (H := sample_host) 0 ResetStopWords
           sample_state).
  reflexivity.
Defined.

(** A primary key known to the handle is replaced by the server's. *)
Example known_key_replaced :
  (Index.fetchPrimaryKey (H := sample_host) keyed_state).1 = Ret (VStr "id")
  ∧ primaryKey (this (Index.fetchPrimaryKey (H := sample_host) keyed_state).2)
    = VStr "id".
Proof. vm_compute. split; reflexivity. Qed.

Lemma negative_batchSize_sends_a_prefix_witness :
  shrinking_batch sample_documents (-2) sample_state
    (Index.addDocumentsInBatches (H := sample_host) 3 sample_documents
       (Some (-2)%Z) VUndefined sample_state).
Proof.
  destruct (negative_batchSize_sends_a_prefix (H := sample_host) 3
              sample_documents (-2)%Z VUndefined sample_state) as [Hadd _];
    [reflexivity | discriminate |].
  exact Hadd.
Defined.

(** The run itself: three of the five documents, then nothing, and again
    nothing when the fuel runs out. *)
Example negative_batchSize_run :
  let run := Index.addDocumentsInBatches (H := sample_host) 3 sample_documents
               (Some (-2)%Z) VUndefined sample_state in
  run.1 = OutOfFuel
  ∧ documents_sent <$> exchanges (world run.2) = [3; 0; 0].
Proof. vm_compute. split; reflexivity. Qed.
